(** * RLP (de-)serialisation: a shallow embedding of [libethereum/RLP.h]

    The decoder class [RLP] reads a borrowed byte view; the encoder class
    [RLPStream] appends to an owned byte vector.  Every member function of
    the header that the properties below talk about is transcribed here as a
    Rocq function over [list byte], with the three ways a call can leave
    the normal path made explicit in the result type. *)

From Stdlib Require Import NArith PeanoNat List Bool Lia.
From Stdlib Require Import Strings.Byte.
From Equations Require Import Equations.
Import ListNotations.

Local Open Scope N_scope.

(** ** Outcomes of a member-function call *)

(** A call either returns, throws [RLP::BadCast], trips an
    [assert(!isNull())], or indexes the byte view at a position that is
    not inside it. *)
Inductive outcome (A : Type) : Type :=
| Ok (a : A)
| BadCast
| AssertFail
| OutOfRange.

Arguments Ok {A} a.
Arguments BadCast {A}.
Arguments AssertFail {A}.
Arguments OutOfRange {A}.

Definition bind {A B : Type} (m : outcome A) (k : A -> outcome B) : outcome B :=
  match m with
  | Ok a => k a
  | BadCast => BadCast
  | AssertFail => AssertFail
  | OutOfRange => OutOfRange
  end.

Notation "x <- m ;; k" := (bind m (fun x => k))
  (at level 61, m at next level, right associativity).

(** C++ [a && b] and [a || b]: the right operand is evaluated only when the
    left one does not decide the result. *)
Definition and_then (a b : outcome bool) : outcome bool :=
  x <- a ;; if x then b else Ok false.

Definition or_else (a b : outcome bool) : outcome bool :=
  x <- a ;; if x then Ok true else b.

Definition not_ (a : outcome bool) : outcome bool :=
  x <- a ;; Ok (negb x).

(** ** Bytes, byte vectors and byte views *)

Definition bytes : Type := list byte.

(** [std::string] is a sequence of bytes. *)
Definition string_ : Type := list byte.

(** Numeric value of a byte, as after integral promotion. *)
Definition val (b : byte) : N := Byte.to_N b.

(** [(byte)x]: the low eight bits of [x]. *)
Definition to_byte (x : N) : byte :=
  match Byte.of_N (x mod 256) with
  | Some b => b
  | None => x00
  end.

(** Modelled from the spec: [vector_ref.h] is not part of the sources.  A
    [bytesConstRef] is a borrowed range given by its base and its length;
    it is represented by the bytes it covers.  [m_data[i]] denotes the
    [i]-th of them; an index at or beyond the length is outside the view. *)
Definition at_ (m_data : bytes) (i : N) : outcome N :=
  match nth_error m_data (N.to_nat i) with
  | Some b => Ok (val b)
  | None => OutOfRange
  end.

(** Modelled from the spec: [vector_ref::size]. *)
Definition size (m_data : bytes) : N := N.of_nat (length m_data).

(** Modelled from the spec: [vector_ref::cropped(_begin)], the sub-range
    from [_begin] to the end, and [vector_ref::cropped(_begin, _count)].
    The spec's invariant that a view never extends beyond the buffer it
    borrows leaves only the null view for a range that does not fit. *)
Definition cropped_from (m_data : bytes) (_begin : N) : bytes :=
  if _begin <=? size m_data then skipn (N.to_nat _begin) m_data else [].

Definition cropped (m_data : bytes) (_begin _count : N) : bytes :=
  if _begin + _count <=? size m_data
  then firstn (N.to_nat _count) (skipn (N.to_nat _begin) m_data)
  else [].

(** ** Integer types *)

(** Modelled from the spec: [Common.h] is not part of the sources.  [uint]
    is the machine word; the header's own comment on [isSlimInt] (payloads
    of up to eight bytes fit [eth::uint]) fixes it at 64 bits.  [u256] is
    the 256-bit unsigned type and [bigint] is unbounded. *)
Inductive IntT : Type := T_uint | T_u256 | T_bigint.

Definition wrap (T : IntT) (x : N) : N :=
  match T with
  | T_uint => x mod 2 ^ 64
  | T_u256 => x mod 2 ^ 256
  | T_bigint => x
  end.

Definition uint (x : N) : N := wrap T_uint x.

(** [a - b] in [uint] arithmetic, for operands already in range. *)
Definition uint_sub (a b : N) : N := uint (a + 2 ^ 64 - b).

(** ** class RLP *)

Module RLP.

(** [bool isNull() const { return m_data.size() == 0; }] *)
Definition isNull (m_data : bytes) : bool := size m_data =? 0.

(** [assert(!isNull());] *)
Definition assert_not_null (m_data : bytes) : outcome unit :=
  if isNull m_data then AssertFail else Ok tt.

(** [bool isEmpty() const { return m_data[0] == 0x40 || m_data[0] == 0x80; }] *)
Definition isEmpty (m_data : bytes) : outcome bool :=
  or_else (b <- at_ m_data 0 ;; Ok (b =? 0x40))
          (b <- at_ m_data 0 ;; Ok (b =? 0x80)).

(** [bool isString() const { assert(!isNull()); return m_data[0] >= 0x40 && m_data[0] < 0x80; }] *)
Definition isString (m_data : bytes) : outcome bool :=
  _ <- assert_not_null m_data ;;
  and_then (b <- at_ m_data 0 ;; Ok (0x40 <=? b))
           (b <- at_ m_data 0 ;; Ok (b <? 0x80)).

(** [bool isList() const { assert(!isNull()); return m_data[0] >= 0x80 && m_data[0] < 0xc0; }] *)
Definition isList (m_data : bytes) : outcome bool :=
  _ <- assert_not_null m_data ;;
  and_then (b <- at_ m_data 0 ;; Ok (0x80 <=? b))
           (b <- at_ m_data 0 ;; Ok (b <? 0xc0)).

(** [bool isInt() const { assert(!isNull()); return m_data[0] < 0x40; }] *)
Definition isInt (m_data : bytes) : outcome bool :=
  _ <- assert_not_null m_data ;;
  b <- at_ m_data 0 ;; Ok (b <? 0x40).

(** [bool isSlimInt() const { assert(!isNull()); return m_data[0] < 0x20; }] *)
Definition isSlimInt (m_data : bytes) : outcome bool :=
  _ <- assert_not_null m_data ;;
  b <- at_ m_data 0 ;; Ok (b <? 0x20).

(** [bool isFatInt() const { assert(!isNull()); return m_data[0] >= 0x20 && m_data[0] < 0x38; }] *)
Definition isFatInt (m_data : bytes) : outcome bool :=
  _ <- assert_not_null m_data ;;
  and_then (b <- at_ m_data 0 ;; Ok (0x20 <=? b))
           (b <- at_ m_data 0 ;; Ok (b <? 0x38)).

(** [bool isFixedInt() const { assert(!isNull()); return m_data[0] < 0x38; }] *)
Definition isFixedInt (m_data : bytes) : outcome bool :=
  _ <- assert_not_null m_data ;;
  b <- at_ m_data 0 ;; Ok (b <? 0x38).

(** [bool isBigInt() const { assert(!isNull()); return m_data[0] >= 0x38 && m_data[0] < 0x40; }] *)
Definition isBigInt (m_data : bytes) : outcome bool :=
  _ <- assert_not_null m_data ;;
  and_then (b <- at_ m_data 0 ;; Ok (0x38 <=? b))
           (b <- at_ m_data 0 ;; Ok (b <? 0x40)).

(** [bool isDirectValueInt() const { assert(!isNull()); return m_data[0] < 0x18; }] *)
Definition isDirectValueInt (m_data : bytes) : outcome bool :=
  _ <- assert_not_null m_data ;;
  b <- at_ m_data 0 ;; Ok (b <? 0x18).

(** [bool isIndirectValueInt() const { assert(!isNull()); return m_data[0] >= 0x18 && m_data[0] < 0x38; }] *)
Definition isIndirectValueInt (m_data : bytes) : outcome bool :=
  _ <- assert_not_null m_data ;;
  and_then (b <- at_ m_data 0 ;; Ok (0x18 <=? b))
           (b <- at_ m_data 0 ;; Ok (b <? 0x38)).

(** [bool isIndirectAddressedInt() const { assert(!isNull()); return m_data[0] < 0x40 && m_data[0] >= 0x38; }] *)
Definition isIndirectAddressedInt (m_data : bytes) : outcome bool :=
  _ <- assert_not_null m_data ;;
  and_then (b <- at_ m_data 0 ;; Ok (b <? 0x40))
           (b <- at_ m_data 0 ;; Ok (0x38 <=? b)).

(** [uint lengthSize() const { auto n = (m_data[0] & 0x3f); return n > 0x37 ? n - 0x37 : 0; }] *)
Definition lengthSize (m_data : bytes) : outcome N :=
  b <- at_ m_data 0 ;;
  let n := N.land b 0x3f in
  Ok (if 0x37 <? n then n - 0x37 else 0).

(** Big-endian value of a byte sequence. *)
Definition be_value (bs : bytes) : N :=
  fold_left (fun acc b => acc * 256 + val b) bs 0.

(** Modelled from the spec: [uint items() const] is declared in the header
    and defined in [RLP.cpp], which is not part of the sources.  With
    [field] the low six bits of the first byte: [field <= 0x37] is the
    count itself; for [field] in 0x38..0x3F the next [field - 0x37] bytes,
    big-endian, encode the count.  Those bytes are read from the view. *)
Definition items (m_data : bytes) : outcome N :=
  b <- at_ m_data 0 ;;
  let n := N.land b 0x3f in
  if n <? 0x38 then Ok n
  else if 1 + (n - 0x37) <=? size m_data
       then Ok (uint (be_value (firstn (N.to_nat (n - 0x37)) (skipn 1 m_data))))
       else OutOfRange.

(** [uint intSize() const { return (!isInt() || isDirectValueInt()) ? 0 :
      isIndirectAddressedInt() ? lengthSize() + items() : (m_data[0] - 0x17); }] *)
Definition intSize (m_data : bytes) : outcome N :=
  c <- or_else (not_ (isInt m_data)) (isDirectValueInt m_data) ;;
  if c then Ok 0
  else
    a <- isIndirectAddressedInt m_data ;;
    if a then l <- lengthSize m_data ;; n <- items m_data ;; Ok (uint (l + n))
    else b <- at_ m_data 0 ;; Ok (uint_sub b 0x17).

(** [bytesConstRef payload() const { auto n = (m_data[0] & 0x3f);
      return m_data.cropped(1 + (n < 0x38 ? 0 : (n - 0x37))); }] *)
Definition payload (m_data : bytes) : outcome bytes :=
  b <- at_ m_data 0 ;;
  let n := N.land b 0x3f in
  Ok (cropped_from m_data (1 + (if n <? 0x38 then 0 else n - 0x37))).

(** [uint itemCount() const { return isList() ? items() : 0; }] *)
Definition itemCount (m_data : bytes) : outcome N :=
  l <- isList m_data ;; if l then items m_data else Ok 0.

(** [uint itemCountStrict() const { if (!isList()) throw BadCast(); return items(); }] *)
Definition itemCountStrict (m_data : bytes) : outcome N :=
  l <- isList m_data ;; if negb l then BadCast else items m_data.

(** [uint stringSize() const { return isString() ? items() : 0; }] *)
Definition stringSize (m_data : bytes) : outcome N :=
  s <- isString m_data ;; if s then items m_data else Ok 0.

(** [std::string toString() const { if (!isString()) return std::string();
      return payload().cropped(0, items()).toString(); }] *)
Definition toString (m_data : bytes) : outcome string_ :=
  s <- isString m_data ;;
  if negb s then Ok []
  else p <- payload m_data ;; n <- items m_data ;; Ok (cropped p 0 n).

(** [std::string toStringStrict() const { if (!isString()) throw BadCast();
      return payload().cropped(0, items()).toString(); }] *)
Definition toStringStrict (m_data : bytes) : outcome string_ :=
  s <- isString m_data ;;
  if negb s then BadCast
  else p <- payload m_data ;; n <- items m_data ;; Ok (cropped p 0 n).

(** One step of the conversion loop: [(ret << 8) | b] in the type [_T]. *)
Definition shl8_or (T : IntT) (ret b : N) : N :=
  wrap T (N.lor (N.shiftl ret 8) b).

(** [for (uint i = 0; i < s; ++i) ret = (ret << 8) | m_data[i + o];]
    [rest] is the view from index [i + o] on and [remaining] is [s - i]. *)
Fixpoint toInt_loop (T : IntT) (rest : bytes) (remaining : N) (ret : N) : outcome N :=
  if remaining =? 0 then Ok ret
  else match rest with
       | [] => OutOfRange
       | b :: rest' => toInt_loop T rest' (remaining - 1) (shl8_or T ret (val b))
       end.

(** [template <class _T = uint> _T toInt() const
    {
      if (!isString() && !isInt()) return 0;
      if (isDirectValueInt()) return m_data[0];
      _T ret = 0;
      auto s = isInt() ? intSize() - lengthSize() : isString() ? items() : 0;
      uint o = lengthSize() + 1;
      for (uint i = 0; i < s; ++i) ret = (ret << 8) | m_data[i + o];
      return ret;
    }] *)
Definition toInt (T : IntT) (m_data : bytes) : outcome N :=
  c <- and_then (not_ (isString m_data)) (not_ (isInt m_data)) ;;
  if c then Ok 0
  else
    dv <- isDirectValueInt m_data ;;
    if dv then b <- at_ m_data 0 ;; Ok (wrap T b)
    else
      s <- (i <- isInt m_data ;;
            if i then a <- intSize m_data ;; l <- lengthSize m_data ;; Ok (uint_sub a l)
            else st <- isString m_data ;; if st then items m_data else Ok 0) ;;
      l <- lengthSize m_data ;;
      let o := uint (l + 1) in
      toInt_loop T (skipn (N.to_nat o) m_data) s 0.

(** [uint toSlimInt() const { return toInt<uint>(); }] and its siblings. *)
Definition toSlimInt (m_data : bytes) : outcome N := toInt T_uint m_data.
Definition toFatInt (m_data : bytes) : outcome N := toInt T_u256 m_data.
Definition toBigInt (m_data : bytes) : outcome N := toInt T_bigint m_data.

(** [uint toSlimIntStrict() const { if (!isSlimInt()) throw BadCast(); return toInt<uint>(); }] *)
Definition toSlimIntStrict (m_data : bytes) : outcome N :=
  s <- isSlimInt m_data ;; if negb s then BadCast else toInt T_uint m_data.

(** [u256 toFatIntStrict() const { if (!isFatInt() && !isSlimInt()) throw BadCast(); return toInt<u256>(); }] *)
Definition toFatIntStrict (m_data : bytes) : outcome N :=
  c <- and_then (not_ (isFatInt m_data)) (not_ (isSlimInt m_data)) ;;
  if c then BadCast else toInt T_u256 m_data.

(** [bigint toBigIntStrict() const { if (!isInt()) throw BadCast(); return toInt<bigint>(); }] *)
Definition toBigIntStrict (m_data : bytes) : outcome N :=
  i <- isInt m_data ;; if negb i then BadCast else toInt T_bigint m_data.

(** Equality of two strings, [std::string::operator==]. *)
Definition string_eqb (a b : string_) : bool :=
  if list_eq_dec Byte.byte_eq_dec a b then true else false.

(** [bool operator==(std::string const& _s) const { return isString() && toString() == _s; }]
    The [char const*] overload has the same body. *)
Definition eq_string (m_data : bytes) (_s : string_) : outcome bool :=
  and_then (isString m_data) (t <- toString m_data ;; Ok (string_eqb t _s)).

(** [bool operator!=(std::string const& _s) const { return isString() && toString() != _s; }] *)
Definition ne_string (m_data : bytes) (_s : string_) : outcome bool :=
  and_then (isString m_data) (t <- toString m_data ;; Ok (negb (string_eqb t _s))).

(** [bool operator==(uint const& _i) const { return (isInt() || isString()) && toSlimInt() == _i; }]
    and the [u256] and [bigint] overloads, which call [toFatInt] and
    [toBigInt]: one definition indexed by the literal's type. *)
Definition eq_int (T : IntT) (m_data : bytes) (_i : N) : outcome bool :=
  and_then (or_else (isInt m_data) (isString m_data))
           (v <- toInt T m_data ;; Ok (v =? _i)).

(** [bool operator!=(uint const& _i) const { return (isInt() || isString()) && toSlimInt() != _i; }] *)
Definition ne_int (T : IntT) (m_data : bytes) (_i : N) : outcome bool :=
  and_then (or_else (isInt m_data) (isString m_data))
           (v <- toInt T m_data ;; Ok (negb (v =? _i))).

(** [explicit operator bool() const { return !isNull(); }] *)
Definition operator_bool (m_data : bytes) : bool := negb (isNull m_data).

(** [bool isSmallString() const { assert(!isNull()); return m_data[0] >= 0x40 && m_data[0] < 0x78; }] *)
Definition isSmallString (m_data : bytes) : outcome bool :=
  _ <- assert_not_null m_data ;;
  and_then (b <- at_ m_data 0 ;; Ok (0x40 <=? b))
           (b <- at_ m_data 0 ;; Ok (b <? 0x78)).

(** [bool isSmallList() const { assert(!isNull()); return m_data[0] >= 0x80 && m_data[0] < 0xb8; }] *)
Definition isSmallList (m_data : bytes) : outcome bool :=
  _ <- assert_not_null m_data ;;
  and_then (b <- at_ m_data 0 ;; Ok (0x80 <=? b))
           (b <- at_ m_data 0 ;; Ok (b <? 0xb8)).

(** [uint toSlimIntFromString() const { if (!isString()) throw BadCast(); return toInt<uint>(); }] *)
Definition toSlimIntFromString (m_data : bytes) : outcome N :=
  s <- isString m_data ;; if negb s then BadCast else toInt T_uint m_data.

(** [u256 toFatIntFromString() const { if (!isString()) throw BadCast(); return toInt<u256>(); }] *)
Definition toFatIntFromString (m_data : bytes) : outcome N :=
  s <- isString m_data ;; if negb s then BadCast else toInt T_u256 m_data.

(** [bigint toBigIntFromString() const { if (!isString()) throw BadCast(); return toInt<bigint>(); }] *)
Definition toBigIntFromString (m_data : bytes) : outcome N :=
  s <- isString m_data ;; if negb s then BadCast else toInt T_bigint m_data.

End RLP.

(** ** Reference notions used to state the properties *)

(** The big-endian assembly of a byte sequence in the type [_T]: starting
    from zero, shift left by eight and OR in the next byte. *)
Definition assemble (T : IntT) (bs : bytes) : N :=
  fold_left (fun ret b => RLP.shl8_or T ret (val b)) bs 0.

(** The assembly of the [s] bytes of the view that start at offset [o];
    they have to lie inside the view to be read. *)
Definition payload_value (T : IntT) (m_data : bytes) (o s : N) : outcome N :=
  if o + s <=? size m_data
  then Ok (assemble T (firstn (N.to_nat s) (skipn (N.to_nat o) m_data)))
  else OutOfRange.

(** The offset one past the last byte that the prefix of an Integer or
    String node announces: the prefix byte, the length bytes and the
    payload.  [None] when the view ends inside the length bytes. *)
Definition announced_end (m_data : bytes) : option N :=
  match m_data with
  | [] => None
  | c :: _ =>
      if val c <? 0x18 then Some 1
      else if val c <? 0x38 then Some (1 + (val c - 0x17))
      else match RLP.lengthSize m_data, RLP.items m_data with
           | Ok l, Ok n => Some (1 + l + n)
           | _, _ => None
           end
  end.

(** The announced bytes all lie inside the view. *)
Definition fits (m_data : bytes) : bool :=
  match announced_end m_data with
  | Some e => e <=? size m_data
  | None => false
  end.

(** The [k] low bytes of [n], most significant first. *)
Fixpoint be_bytes (k : nat) (n : N) : bytes :=
  match k with
  | O => []
  | S k' => be_bytes k' (n / 256) ++ [to_byte n]
  end.

(** Exactly one of three propositions holds. *)
Definition exactly_one (P Q R : Prop) : Prop :=
  (P /\ ~ Q /\ ~ R) \/ (~ P /\ Q /\ ~ R) \/ (~ P /\ ~ Q /\ R).

(** ** class RLPStream *)

Module RLPStream.

(** [template <class _T> static uint bytesRequired(_T _i)
    {
      _i >>= 8;
      uint i = 1;
      for (; _i != 0; ++i, _i >>= 8) {}
      return i;
    }]
    The loop is the recursion below; every pass shifts a non-zero [_i]
    to the right, which makes it smaller. *)
Equations? bytesRequired_loop (_i : N) (i : N) : N by wf (N.to_nat _i) lt :=
  bytesRequired_loop _i i with N.eq_dec _i 0 => {
    | left _ := i ;
    | right _ := bytesRequired_loop (N.shiftr _i 8) (uint (i + 1)) }.
Proof.
  change (N.to_nat (N.shiftr _i 8) < N.to_nat _i)%nat.
  rewrite N.shiftr_div_pow2.
  assert (_i / 2 ^ 8 < _i) by (apply N.div_lt; lia).
  lia.
Qed.

Definition bytesRequired (_i : N) : N :=
  bytesRequired_loop (N.shiftr _i 8) 1.

(** [*p = v] for the [p]-th element of the vector. *)
Fixpoint store (m_out : bytes) (p : nat) (v : byte) : bytes :=
  match m_out, p with
  | [], _ => []
  | _ :: t, O => v :: t
  | h :: t, S p' => h :: store t p' v
  end.

(** [for (; _i; _i >>= 8) *(b--) = (byte)_i;]
    [room] counts the elements from the start of the vector up to and
    including the one [b] points to; with none left, the store would land
    in front of the vector. *)
Fixpoint pushInt_loop (room : nat) (m_out : bytes) (_i : N) : outcome bytes :=
  if _i =? 0 then Ok m_out
  else match room with
       | O => OutOfRange
       | S p => pushInt_loop p (store m_out p (to_byte _i)) (N.shiftr _i 8)
       end.

(** [template <class _T> void pushInt(_T _i, uint _br)
    {
      m_out.resize(m_out.size() + _br);
      byte* b = &m_out.back();
      for (; _i; _i >>= 8) *(b--) = (byte)_i;
    }] *)
Definition pushInt (m_out : bytes) (_i : N) (_br : N) : outcome bytes :=
  let m := m_out ++ repeat x00 (N.to_nat _br) in
  pushInt_loop (length m) m _i.

(** [m_out.push_back(b)] with the conversion of [b] to [byte]. *)
Definition push_back (m_out : bytes) (b : N) : bytes := m_out ++ [to_byte b].

(** Modelled from the spec: [void pushCount(uint _count, byte _base)] is
    declared in the header ("push the node-type byte (using _base) along
    with the item count _count") and defined in [RLP.cpp], which is not
    part of the sources.  For the indirect tier the first byte is the
    category base plus 0x37 plus the length-of-length, followed by the
    count in that many big-endian bytes, the fewest that hold it. *)
Definition pushCount (m_out : bytes) (_count : N) (_base : N) : outcome bytes :=
  let br := bytesRequired _count in
  pushInt (push_back m_out (br + 0x37 + _base)) _count br.

(** Modelled from the spec: [RLPStream& append(std::string const& _s)] is
    declared in the header and defined in [RLP.cpp], which is not part of
    the sources.  It writes the String prefix with the count field set to
    the byte length of the string (direct if at most 0x37, else indirect
    with the fewest length-of-length bytes), followed by the raw bytes. *)
Definition append (m_out : bytes) (_s : string_) : outcome bytes :=
  h <- (if size _s <=? 0x37 then Ok (push_back m_out (0x40 + size _s))
        else pushCount m_out (size _s) 0x40) ;;
  Ok (h ++ _s).

End RLPStream.

(** ** Reading the first byte *)

Import RLP.

Lemma val_bound (c : byte) : val c < 256.
Proof. unfold val. pose proof (Byte.to_N_bounded c). lia. Qed.

Lemma size_cons (c : byte) (rest : bytes) : size (c :: rest) = 1 + size rest.
Proof. unfold size. cbn [length]. lia. Qed.

Lemma size_app (a b : bytes) : size (a ++ b) = size a + size b.
Proof. unfold size. rewrite length_app. lia. Qed.

Lemma isNull_cons (c : byte) (rest : bytes) : isNull (c :: rest) = false.
Proof. reflexivity. Qed.

Lemma nonnull_first (d : bytes) (b : N) :
  isNull d = false -> at_ d 0 = Ok b ->
  exists c rest, d = c :: rest /\ val c = b.
Proof.
  destruct d as [|c rest]; [discriminate|].
  intros _ H. cbn in H. injection H as <-. eauto.
Qed.

Lemma nonnull_has_first (d : bytes) :
  isNull d = false -> exists c rest, d = c :: rest.
Proof. destruct d as [|c rest]; [discriminate|eauto]. Qed.

Lemma at_0_cons (c : byte) (rest : bytes) : at_ (c :: rest) 0 = Ok (val c).
Proof. reflexivity. Qed.

(** Every range test of the header comes down to comparisons on the first
    byte. *)
Ltac by_first_byte :=
  cbv [isString isList isInt isSlimInt isFatInt isFixedInt isBigInt
       isDirectValueInt isIndirectValueInt isIndirectAddressedInt
       isEmpty assert_not_null isNull and_then or_else not_ bind];
  cbn [size length at_ nth_error N.to_nat N.of_nat N.eqb];
  repeat match goal with
         | |- context [?a <=? ?b] => destruct (N.leb_spec a b)
         | |- context [?a <? ?b] => destruct (N.ltb_spec a b)
         | |- context [?a =? ?b] => destruct (N.eqb_spec a b)
         end;
  cbn [andb orb negb]; try reflexivity; try lia.

Lemma isString_cons c rest :
  isString (c :: rest) = Ok ((0x40 <=? val c) && (val c <? 0x80))%bool.
Proof. by_first_byte. Qed.

Lemma isList_cons c rest :
  isList (c :: rest) = Ok ((0x80 <=? val c) && (val c <? 0xc0))%bool.
Proof. by_first_byte. Qed.

Lemma isInt_cons c rest : isInt (c :: rest) = Ok (val c <? 0x40).
Proof. by_first_byte. Qed.

Lemma isSlimInt_cons c rest : isSlimInt (c :: rest) = Ok (val c <? 0x20).
Proof. by_first_byte. Qed.

Lemma isFatInt_cons c rest :
  isFatInt (c :: rest) = Ok ((0x20 <=? val c) && (val c <? 0x38))%bool.
Proof. by_first_byte. Qed.

Lemma isDirectValueInt_cons c rest :
  isDirectValueInt (c :: rest) = Ok (val c <? 0x18).
Proof. by_first_byte. Qed.

Lemma isIndirectValueInt_cons c rest :
  isIndirectValueInt (c :: rest) = Ok ((0x18 <=? val c) && (val c <? 0x38))%bool.
Proof. by_first_byte. Qed.

Lemma isIndirectAddressedInt_cons c rest :
  isIndirectAddressedInt (c :: rest) = Ok ((val c <? 0x40) && (0x38 <=? val c))%bool.
Proof. by_first_byte. Qed.

Lemma isEmpty_cons c rest :
  isEmpty (c :: rest) = Ok ((val c =? 0x40) || (val c =? 0x80))%bool.
Proof. by_first_byte. Qed.

Create Rewrite HintDb first_byte.

#[local] Hint Rewrite isString_cons isList_cons isInt_cons isSlimInt_cons
  isFatInt_cons isDirectValueInt_cons isIndirectValueInt_cons
  isIndirectAddressedInt_cons isEmpty_cons at_0_cons isNull_cons : first_byte.

(** Decide the comparisons that occur in the goal and in the hypotheses. *)
Ltac split_ranges :=
  repeat match goal with
         | |- context [?a <=? ?b] => destruct (N.leb_spec a b)
         | |- context [?a <? ?b] => destruct (N.ltb_spec a b)
         | |- context [?a =? ?b] => destruct (N.eqb_spec a b)
         | H : context [?a <=? ?b] |- _ => destruct (N.leb_spec a b)
         | H : context [?a <? ?b] |- _ => destruct (N.ltb_spec a b)
         | H : context [?a =? ?b] |- _ => destruct (N.eqb_spec a b)
         end;
  cbn [andb orb negb] in *.

(** ** Classification *)

(** C2: for a non-null node the category predicates are decided by the
    first byte alone: [isInt] holds iff it is in 0x00..0x3F, [isString] iff
    in 0x40..0x7F, [isList] iff in 0x80..0xBF; so below 0xC0 exactly one of
    the three holds and from 0xC0 on none does. *)
Theorem category_by_first_byte (d : bytes) (b : N) :
  isNull d = false -> at_ d 0 = Ok b ->
  isInt d = Ok (b <=? 0x3f)
  /\ isString d = Ok ((0x40 <=? b) && (b <=? 0x7f))%bool
  /\ isList d = Ok ((0x80 <=? b) && (b <=? 0xbf))%bool
  /\ (b < 0xc0 ->
      exactly_one (isInt d = Ok true) (isString d = Ok true) (isList d = Ok true))
  /\ (0xc0 <= b ->
      isInt d = Ok false /\ isString d = Ok false /\ isList d = Ok false).
Proof.
  intros Hn Hb.
  destruct (nonnull_first d b Hn Hb) as (c & rest & -> & <-).
  autorewrite with first_byte. unfold exactly_one.
  repeat split; intros; split_ranges;
    try reflexivity; try lia; intuition (try discriminate; try congruence).
Qed.

Lemma category_by_first_byte_witness :
  isInt [x43; x64; x6f; x67] = Ok false
  /\ isString [x43; x64; x6f; x67] = Ok true
  /\ isList [x43; x64; x6f; x67] = Ok false.
Proof.
  destruct (category_by_first_byte [x43; x64; x6f; x67] 0x43)
    as (Hi & Hs & Hl & _); [reflexivity | reflexivity |].
  repeat split; assumption.
Defined.

(** ** The header fields *)

Lemma land_3f (b : N) : N.land b 0x3f = b mod 64.
Proof. change 0x3f with (N.ones 6). now rewrite N.land_ones. Qed.

Lemma field_of_byte (b : N) :
  b < 256 ->
  exists q m, b mod 64 = m /\ q < 4 /\ b = 64 * q + m /\ m < 64.
Proof.
  intros Hb. exists (b / 64), (b mod 64). repeat split.
  - apply N.Div0.div_lt_upper_bound. lia.
  - apply N.div_mod. lia.
  - apply N.mod_lt. lia.
Qed.

(** Name the count field of the first byte [c] and forget how it was
    computed, so that linear arithmetic applies. *)
Ltac name_field c q m :=
  let H := fresh "Hfield" in
  destruct (field_of_byte (val c) (val_bound c)) as (q & m & H & ? & ? & ?);
  rewrite ?H in *; clear H.

Lemma uint_small (x : N) : x < 2 ^ 64 -> uint x = x.
Proof. intros H. unfold uint, wrap. now apply N.mod_small. Qed.

Lemma uint_bound (x : N) : uint x < 2 ^ 64.
Proof. unfold uint, wrap. apply N.mod_lt. discriminate. Qed.

Lemma uint_sub_small (a b : N) : b <= a -> a < 2 ^ 64 -> uint_sub a b = a - b.
Proof.
  intros Hba Ha. unfold uint_sub, uint, wrap.
  replace (a + 2 ^ 64 - b) with (a - b + 1 * 2 ^ 64) by lia.
  rewrite N.Div0.mod_add. apply N.mod_small. lia.
Qed.

(** [(l + n) - l] in [uint] arithmetic gives [n] back, also when the sum
    wraps. *)
Lemma uint_add_sub (l n : N) :
  l < 2 ^ 64 -> n < 2 ^ 64 -> uint_sub (uint (l + n)) l = n.
Proof.
  intros Hl Hn. unfold uint_sub, uint, wrap.
  destruct (N.lt_ge_cases (l + n) (2 ^ 64)) as [Hs|Hs].
  - rewrite (N.mod_small (l + n)) by assumption.
    replace (l + n + 2 ^ 64 - l) with (n + 1 * 2 ^ 64) by lia.
    rewrite N.Div0.mod_add. now apply N.mod_small.
  - replace (l + n) with ((l + n - 2 ^ 64) + 1 * 2 ^ 64) at 1 by lia.
    rewrite N.Div0.mod_add, (N.mod_small (l + n - 2 ^ 64)) by lia.
    replace (l + n - 2 ^ 64 + 2 ^ 64 - l) with n by lia.
    now apply N.mod_small.
Qed.

Lemma lengthSize_cons c rest :
  lengthSize (c :: rest) =
  Ok (if 0x37 <? val c mod 64 then val c mod 64 - 0x37 else 0).
Proof. unfold lengthSize. rewrite at_0_cons. cbn [bind]. now rewrite land_3f. Qed.

Lemma items_cons c rest :
  items (c :: rest) =
  let n := val c mod 64 in
  if n <? 0x38 then Ok n
  else if n - 0x37 <=? size rest
       then Ok (uint (be_value (firstn (N.to_nat (n - 0x37)) rest)))
       else OutOfRange.
Proof.
  unfold items. rewrite at_0_cons. cbn [bind]. rewrite land_3f, size_cons.
  cbn zeta. destruct (val c mod 64 <? 0x38); [reflexivity|].
  cbn [skipn].
  destruct (N.leb_spec (1 + (val c mod 64 - 0x37)) (1 + size rest));
    destruct (N.leb_spec (val c mod 64 - 0x37) (size rest)); try reflexivity; lia.
Qed.

Lemma items_bound d n : items d = Ok n -> n < 2 ^ 64.
Proof.
  destruct d as [|c rest]; [discriminate|].
  rewrite items_cons. cbn zeta.
  pose proof (N.mod_lt (val c) 64 ltac:(discriminate)) as Hm.
  destruct (val c mod 64 <? 0x38).
  - intros [= <-]. change (2 ^ 64) with 18446744073709551616. lia.
  - destruct (_ <=? _); [|discriminate]. intros [= <-]. apply uint_bound.
Qed.

Lemma items_not_BadCast d : items d <> BadCast.
Proof.
  destruct d as [|c rest]; [discriminate|].
  rewrite items_cons. cbn zeta.
  destruct (_ <? _); [discriminate|]. destruct (_ <=? _); discriminate.
Qed.

Lemma items_not_AssertFail c rest : items (c :: rest) <> AssertFail.
Proof.
  rewrite items_cons. cbn zeta.
  destruct (_ <? _); [discriminate|]. destruct (_ <=? _); discriminate.
Qed.

Lemma intSize_cons c rest :
  intSize (c :: rest) =
  if val c <? 0x18 then Ok 0
  else if val c <? 0x38 then Ok (val c - 0x17)
  else if val c <? 0x40
       then n <- items (c :: rest) ;; Ok (uint (val c - 0x37 + n))
       else Ok 0.
Proof.
  unfold intSize. autorewrite with first_byte. rewrite lengthSize_cons.
  pose proof (val_bound c) as Hc.
  name_field c q m.
  unfold or_else, not_, bind.
  split_ranges; try reflexivity; try (exfalso; lia).
  - replace (m - 55) with (val c - 55) by lia. reflexivity.
  - rewrite uint_sub_small; [reflexivity | lia |].
    change (2 ^ 64) with 18446744073709551616. lia.
Qed.

(** ** The conversion loop *)

Lemma toInt_loop_spec T rest s ret :
  toInt_loop T rest s ret =
  if s <=? size rest
  then Ok (fold_left (fun r b => shl8_or T r (val b)) (firstn (N.to_nat s) rest) ret)
  else OutOfRange.
Proof.
  revert s ret. induction rest as [|b rest IH]; intros s ret; cbn [toInt_loop].
  - destruct (N.eqb_spec s 0) as [->|Hs]; [reflexivity|].
    destruct (N.leb_spec s (size [])) as [Hle|_]; [|reflexivity].
    cbn in Hle. lia.
  - destruct (N.eqb_spec s 0) as [->|Hs]; [reflexivity|].
    rewrite IH, size_cons.
    replace (N.to_nat s) with (S (N.to_nat (s - 1))) by lia.
    cbn [firstn fold_left].
    destruct (N.leb_spec (s - 1) (size rest));
      destruct (N.leb_spec s (1 + size rest)); try reflexivity; lia.
Qed.

Lemma toInt_loop_not_BadCast T rest s ret : toInt_loop T rest s ret <> BadCast.
Proof. rewrite toInt_loop_spec. destruct (_ <=? _); discriminate. Qed.

(** The loop reads the view by index: with [rest] the view from index [k]
    on, one pass reads [m_data[k]] and goes on from index [k + 1]. *)
Lemma hd_skipn (d : bytes) (k : nat) :
  nth_error d k = match skipn k d with [] => None | b :: _ => Some b end.
Proof.
  revert d. induction k as [|k IH]; intros [|c d]; cbn; try reflexivity. apply IH.
Qed.

Lemma tl_skipn (d : bytes) (k : nat) :
  skipn (S k) d = match skipn k d with [] => [] | _ :: t => t end.
Proof.
  revert d. induction k as [|k IH]; intros [|c d]; try reflexivity.
  change (skipn (S (S k)) (c :: d)) with (skipn (S k) d).
  change (skipn (S k) (c :: d)) with (skipn k d). apply IH.
Qed.

Lemma toInt_loop_at T (d : bytes) (k s ret : N) :
  toInt_loop T (skipn (N.to_nat k) d) s ret =
  if s =? 0 then Ok ret
  else b <- at_ d k ;;
       toInt_loop T (skipn (N.to_nat (k + 1)) d) (s - 1) (shl8_or T ret b).
Proof.
  unfold at_. rewrite hd_skipn.
  replace (N.to_nat (k + 1)) with (S (N.to_nat k)) by lia.
  rewrite tl_skipn.
  destruct (skipn (N.to_nat k) d) as [|b rest]; cbn [toInt_loop bind];
    destruct (s =? 0); reflexivity.
Qed.

(** Shift-and-or assembly is the big-endian value, cut to the width. *)
Lemma shl8_lor_add (r b : N) : b < 256 -> N.lor (N.shiftl r 8) b = r * 256 + b.
Proof.
  intros Hb. rewrite N.shiftl_mul_pow2. change (2 ^ 8) with 256.
  assert (Hland : N.land (r * 256) b = 0).
  { apply N.bits_inj. intros n. rewrite N.land_spec, N.bits_0.
    destruct (N.lt_ge_cases n 8) as [Hn|Hn].
    - change 256 with (2 ^ 8). rewrite N.mul_pow2_bits_low by assumption. reflexivity.
    - destruct (N.eq_dec b 0) as [->|Hb0]; [now rewrite N.bits_0, andb_false_r|].
      rewrite (N.bits_above_log2 b), andb_false_r; [reflexivity|].
      apply N.lt_le_trans with (m := 8); [|assumption].
      apply N.log2_lt_pow2; [lia|exact Hb]. }
  now rewrite <- N.lxor_lor, <- N.add_nocarry_lxor.
Qed.

Lemma wrap_step T (r b : N) : wrap T (wrap T r * 256 + b) = wrap T (r * 256 + b).
Proof.
  destruct T; unfold wrap; try reflexivity.
  all: rewrite N.Div0.add_mod, N.Div0.mul_mod_idemp_l, <- N.Div0.add_mod; reflexivity.
Qed.

Lemma fold_shl8_or T (bs : bytes) (r : N) :
  fold_left (fun ret b => shl8_or T ret (val b)) bs (wrap T r) =
  wrap T (fold_left (fun acc b => acc * 256 + val b) bs r).
Proof.
  revert r. induction bs as [|b bs IH]; intros r; cbn [fold_left]; [reflexivity|].
  unfold shl8_or at 2. rewrite shl8_lor_add by apply val_bound.
  rewrite wrap_step. apply IH.
Qed.

Lemma wrap_0 T : wrap T 0 = 0.
Proof. destruct T; reflexivity. Qed.

Lemma assemble_big_endian T (bs : bytes) : assemble T bs = wrap T (be_value bs).
Proof.
  unfold assemble, be_value. rewrite <- (wrap_0 T) at 1. apply fold_shl8_or.
Qed.


Lemma skipn_header (l : N) (c : byte) (rest : bytes) :
  l < 256 ->
  skipn (N.to_nat (uint (l + 1))) (c :: rest) = skipn (N.to_nat l) rest.
Proof.
  intros Hl. rewrite uint_small.
  - replace (N.to_nat (l + 1)) with (S (N.to_nat l)) by lia. reflexivity.
  - change (2 ^ 64) with 18446744073709551616. lia.
Qed.

(** [toInt] by the range of the first byte. *)
Lemma toInt_cons T c rest :
  toInt T (c :: rest) =
  if val c <? 0x18 then Ok (wrap T (val c))
  else if val c <? 0x38 then toInt_loop T rest (val c - 0x17) 0
  else if val c <? 0x40
       then n <- items (c :: rest) ;;
            toInt_loop T (skipn (N.to_nat (val c - 0x37)) rest) n 0
  else if val c <? 0x78 then toInt_loop T rest (val c - 0x40) 0
  else if val c <? 0x80
       then n <- items (c :: rest) ;;
            toInt_loop T (skipn (N.to_nat (val c - 0x77)) rest) n 0
  else Ok 0.
Proof.
  unfold toInt. autorewrite with first_byte.
  rewrite intSize_cons, lengthSize_cons.
  pose proof (val_bound c) as Hc.
  assert (Hfield : items (c :: rest) = items (c :: rest)) by reflexivity.
  rewrite items_cons in Hfield at 2. cbn zeta in Hfield.
  name_field c q m.
  unfold and_then, not_, bind.
  destruct (N.ltb_spec (val c) 0x18);
    [split_ranges; try reflexivity; exfalso; lia|].
  destruct (N.ltb_spec (val c) 0x38).
  { clear Hfield. split_ranges; try (exfalso; lia).
    rewrite uint_sub_small, N.sub_0_r;
      [rewrite skipn_header by lia; reflexivity | lia |].
    change (2 ^ 64) with 18446744073709551616. lia. }
  destruct (N.ltb_spec (val c) 0x40).
  { clear Hfield.
    destruct (N.ltb_spec 0x37 m); [|exfalso; lia].
    destruct (N.ltb_spec (val c) 0x80); [|exfalso; lia].
    destruct (N.leb_spec 0x40 (val c)); [exfalso; lia|].
    destruct (N.leb_spec 0x38 (val c)); [|exfalso; lia].
    cbn [andb negb].
    destruct (items (c :: rest)) as [n| | |] eqn:Hn; try reflexivity.
    apply items_bound in Hn.
    replace (m - 55) with (val c - 55) by lia.
    rewrite uint_add_sub, skipn_header; try reflexivity; lia. }
  destruct (N.ltb_spec (val c) 0x78).
  { destruct (N.ltb_spec 0x37 m); [exfalso; lia|].
    destruct (N.ltb_spec m 0x38); [|exfalso; lia].
    rewrite Hfield.
    destruct (N.ltb_spec (val c) 0x80); [|exfalso; lia].
    destruct (N.leb_spec 0x40 (val c)); [|exfalso; lia].
    cbn [andb negb].
    rewrite skipn_header by lia. cbn [skipn N.to_nat].
    replace (val c - 64) with m by lia. reflexivity. }
  destruct (N.ltb_spec (val c) 0x80).
  { clear Hfield.
    destruct (N.ltb_spec 0x37 m); [|exfalso; lia].
    destruct (N.leb_spec 0x40 (val c)); [|exfalso; lia].
    cbn [andb negb].
    destruct (items (c :: rest)) as [n| | |] eqn:Hn; try reflexivity.
    rewrite skipn_header by lia.
    replace (m - 55) with (val c - 119) by lia. reflexivity. }
  clear Hfield.
  destruct (N.leb_spec 0x40 (val c)); [|exfalso; lia].
  cbn [andb negb].
  destruct (N.ltb_spec (val c) 0x40); [exfalso; lia|]. reflexivity.
Qed.

Lemma toInt_not_BadCast T d : toInt T d <> BadCast.
Proof.
  destruct d as [|c rest]; [discriminate|].
  rewrite toInt_cons.
  repeat match goal with
         | |- context [if ?b then _ else _] => destruct b
         end;
    try discriminate; try apply toInt_loop_not_BadCast;
    (destruct (items (c :: rest)) eqn:Hn; cbn [bind];
     [apply toInt_loop_not_BadCast | now apply items_not_BadCast in Hn
     | discriminate | discriminate]).
Qed.

(** C9: [isEmpty] carries no [assert(!isNull())]: on a null node it reads
    index 0 of an empty view, and that out-of-range read happens exactly
    when the node is null, where [isString], [isList] and [isInt] stop at
    their assertion instead; on a non-null node [isEmpty] is true iff the
    first byte is exactly 0x40 or exactly 0x80. *)
Theorem isEmpty_unguarded (d : bytes) :
  (isEmpty d = OutOfRange <-> isNull d = true)
  /\ isEmpty d <> AssertFail
  /\ (isNull d = true ->
      isString d = AssertFail /\ isList d = AssertFail /\ isInt d = AssertFail)
  /\ (forall b, isNull d = false -> at_ d 0 = Ok b ->
      isEmpty d = Ok ((b =? 0x40) || (b =? 0x80))%bool).
Proof.
  destruct d as [|c rest].
  - repeat split; try reflexivity; try discriminate.
  - autorewrite with first_byte. repeat split; try discriminate.
    intros b _ [= <-]. reflexivity.
Qed.

Lemma isEmpty_unguarded_witness :
  isEmpty [] = OutOfRange
  /\ isString [] = AssertFail
  /\ isEmpty [x40] = Ok true /\ isEmpty [x80] = Ok true /\ isEmpty [x41] = Ok false.
Proof.
  destruct (isEmpty_unguarded []) as (H1 & _ & H2 & _).
  split; [apply H1; reflexivity|].
  split; [apply (H2 eq_refl)|].
  destruct (isEmpty_unguarded [x40]) as (_ & _ & _ & H40).
  destruct (isEmpty_unguarded [x80]) as (_ & _ & _ & H80).
  destruct (isEmpty_unguarded [x41]) as (_ & _ & _ & H41).
  split; [apply (H40 0x40); reflexivity|].
  split; [apply (H80 0x80); reflexivity|].
  apply (H41 0x41); reflexivity.
Defined.

(** ** Lenient and strict accessors *)

Lemma items_in_view c rest l :
  lengthSize (c :: rest) = Ok l -> 1 + l <= size (c :: rest) ->
  exists n, items (c :: rest) = Ok n.
Proof.
  rewrite lengthSize_cons, items_cons, size_cons. cbn zeta.
  name_field c q m. intros [= <-] Hl.
  split_ranges; eauto; exfalso; lia.
Qed.

(** C5: on a non-null node that is not a list, [itemCount] returns 0 and
    [itemCountStrict] throws [BadCast]; on a list node both give the same
    count, neither throws, and both return once the count field lies in
    the view. *)
Theorem itemCount_lenient_vs_strict (d : bytes) :
  isNull d = false ->
  (isList d = Ok false -> itemCount d = Ok 0 /\ itemCountStrict d = BadCast)
  /\ (isList d = Ok true ->
      itemCountStrict d = itemCount d
      /\ itemCount d = items d
      /\ itemCount d <> BadCast /\ itemCountStrict d <> BadCast
      /\ (forall l, lengthSize d = Ok l -> 1 + l <= size d ->
          exists n, itemCount d = Ok n /\ itemCountStrict d = Ok n)).
Proof.
  intros Hn. destruct (nonnull_has_first d Hn) as (c & rest & ->).
  unfold itemCount, itemCountStrict.
  split; intros ->; cbn [bind negb]; [split; reflexivity|].
  repeat split; try apply items_not_BadCast.
  intros l Hl Hsz. destruct (items_in_view c rest l Hl Hsz) as (n & ->). eauto.
Qed.

Lemma itemCount_lenient_vs_strict_witness :
  (itemCount [x43; x64; x6f; x67] = Ok 0
   /\ itemCountStrict [x43; x64; x6f; x67] = BadCast)
  /\ itemCountStrict [x82; x01; x02] = itemCount [x82; x01; x02].
Proof.
  split.
  - apply (itemCount_lenient_vs_strict [x43; x64; x6f; x67]); reflexivity.
  - apply (itemCount_lenient_vs_strict [x82; x01; x02]); reflexivity.
Defined.

(** C4: the strict integer conversions throw [BadCast] by tier:
    [toSlimIntStrict] iff the first byte is not below 0x20,
    [toFatIntStrict] iff it is not below 0x38, [toBigIntStrict] iff the
    node is not an integer; a conversion that does not throw gives what
    the lenient [toInt] of its width gives. *)
Theorem strict_int_tiers (d : bytes) (b : N) :
  isNull d = false -> at_ d 0 = Ok b ->
  (toSlimIntStrict d = BadCast <-> ~ b < 0x20)
  /\ (toSlimIntStrict d <> BadCast -> toSlimIntStrict d = toInt T_uint d)
  /\ (toFatIntStrict d = BadCast <-> ~ b < 0x38)
  /\ (toFatIntStrict d <> BadCast -> toFatIntStrict d = toInt T_u256 d)
  /\ (toBigIntStrict d = BadCast <-> isInt d = Ok false)
  /\ (toBigIntStrict d <> BadCast -> toBigIntStrict d = toInt T_bigint d).
Proof.
  intros Hn Hb.
  destruct (nonnull_first d b Hn Hb) as (c & rest & -> & <-).
  unfold toSlimIntStrict, toFatIntStrict, toBigIntStrict.
  autorewrite with first_byte. unfold and_then, not_, bind.
  pose proof (toInt_not_BadCast T_uint (c :: rest)).
  pose proof (toInt_not_BadCast T_u256 (c :: rest)).
  pose proof (toInt_not_BadCast T_bigint (c :: rest)).
  repeat split; intros; split_ranges;
    try reflexivity; try lia; try congruence; try (exfalso; lia).
Qed.

Lemma strict_int_tiers_witness :
  toSlimIntStrict [x19; x01; x00] = toInt T_uint [x19; x01; x00]
  /\ toSlimIntStrict [x20; x01; x00; x00; x00; x00; x00; x00; x00; x00] = BadCast.
Proof.
  split.
  - apply (strict_int_tiers [x19; x01; x00] 0x19); try reflexivity.
    vm_compute. discriminate.
  - apply (strict_int_tiers [x20; x01; x00; x00; x00; x00; x00; x00; x00; x00] 0x20);
      try reflexivity.
    vm_compute. discriminate.
Defined.

(** ** Best-effort comparison *)

Lemma string_eqb_eq (a b : string_) : string_eqb a b = true <-> a = b.
Proof.
  unfold string_eqb. destruct (list_eq_dec _ a b); split; congruence.
Qed.

Lemma toString_not_BadCast d : toString d <> BadCast.
Proof.
  destruct d as [|c rest]; [discriminate|].
  unfold toString, payload. autorewrite with first_byte.
  cbn [bind]. destruct (negb _); [discriminate|].
  destruct (items (c :: rest)) eqn:Hi; cbn [bind]; try discriminate.
  now apply items_not_BadCast in Hi.
Qed.

(** C6: on a non-null node [operator==] against a literal is true iff the
    category matches the kind of the literal (String for a string; Integer
    or String for an integer) and the lenient conversion equals the
    literal; with a mismatching category it returns false, and it never
    throws. *)
Theorem best_effort_equality (d : bytes) :
  isNull d = false ->
  (forall s,
      (eq_string d s = Ok true <-> isString d = Ok true /\ toString d = Ok s)
      /\ (isString d = Ok false -> eq_string d s = Ok false)
      /\ eq_string d s <> BadCast)
  /\ (forall T i,
      (eq_int T d i = Ok true <->
       (isInt d = Ok true \/ isString d = Ok true) /\ toInt T d = Ok i)
      /\ (isInt d = Ok false -> isString d = Ok false -> eq_int T d i = Ok false)
      /\ eq_int T d i <> BadCast).
Proof.
  intros Hn. destruct (nonnull_has_first d Hn) as (c & rest & ->).
  split.
  - intros s. unfold eq_string, and_then.
    pose proof (toString_not_BadCast (c :: rest)) as Hnb.
    destruct (isString (c :: rest)) as [[|]| | |] eqn:Hs;
      try (rewrite isString_cons in Hs; discriminate); cbn [bind].
    + destruct (toString (c :: rest)) as [t| | |]; cbn [bind];
        try congruence;
        (split; [split|split; discriminate]).
      * intros [= E]. apply string_eqb_eq in E. now subst.
      * intros [_ [= ->]]. f_equal. now apply string_eqb_eq.
      * discriminate.
      * now intros [_ E].
      * discriminate.
      * now intros [_ E].
    + split; [split|split; [reflexivity|discriminate]].
      * discriminate.
      * now intros [E _].
  - intros T i. unfold eq_int, and_then, or_else.
    pose proof (toInt_not_BadCast T (c :: rest)) as Hnb.
    assert (Hcat : exists x y, isInt (c :: rest) = Ok x /\ isString (c :: rest) = Ok y)
      by (rewrite isInt_cons, isString_cons; eauto).
    destruct Hcat as (x & y & -> & ->). cbn [bind].
    assert (Hor : (if x then Ok true else Ok y) = Ok (x || y)%bool)
      by now destruct x.
    rewrite Hor. cbn [bind].
    destruct (x || y)%bool eqn:Hxy.
    + assert (Hcat : Ok x = Ok true \/ Ok y = Ok true)
        by (apply orb_true_iff in Hxy as [->| ->]; auto).
      destruct (toInt T (c :: rest)) as [v| | |]; cbn [bind];
        try congruence;
        (split; [split|split; [|discriminate]]);
        try discriminate; try (now intros [_ E]);
        try (apply orb_true_iff in Hxy as [->| ->]; discriminate).
      * intros [= E]. apply N.eqb_eq in E. now subst.
      * intros [_ [= ->]]. now rewrite N.eqb_refl.
    + apply orb_false_iff in Hxy as [-> ->].
      split; [split|split; [reflexivity|discriminate]].
      * discriminate.
      * now intros [[E|E] _].
Qed.

Lemma best_effort_equality_witness :
  eq_string [x43; x64; x6f; x67] [x64; x6f; x67] = Ok true
  /\ eq_string [x82; x01; x02] [x64; x6f; x67] = Ok false
  /\ eq_int T_uint [x19; x01; x00] 256 = Ok true.
Proof.
  destruct (best_effort_equality [x43; x64; x6f; x67] eq_refl) as (Hs & _).
  destruct (best_effort_equality [x82; x01; x02] eq_refl) as (Hl & _).
  destruct (best_effort_equality [x19; x01; x00] eq_refl) as (_ & Hi).
  split; [apply Hs; split; reflexivity|].
  split; [apply Hl; reflexivity|].
  apply Hi; split; [left|]; reflexivity.
Defined.

(** C10: [operator!=] is not the negation of [operator==]: on a non-null
    node whose category does not match the kind of the literal both
    return false, since [operator!=] tests the category first as well. *)
Theorem inequality_not_negation (d : bytes) :
  isNull d = false ->
  (forall s, isString d = Ok false ->
             eq_string d s = Ok false /\ ne_string d s = Ok false)
  /\ (forall T i, isInt d = Ok false -> isString d = Ok false ->
                  eq_int T d i = Ok false /\ ne_int T d i = Ok false).
Proof.
  intros _. split.
  - intros s Hs. unfold eq_string, ne_string, and_then. rewrite Hs. now split.
  - intros T i Hi Hs. unfold eq_int, ne_int, and_then, or_else.
    rewrite Hi, Hs. now split.
Qed.

Lemma inequality_not_negation_witness :
  (eq_string [x82; x01; x02] [x64; x6f; x67] = Ok false
   /\ ne_string [x82; x01; x02] [x64; x6f; x67] = Ok false)
  /\ (eq_int T_uint [x82; x01; x02] 1 = Ok false
      /\ ne_int T_uint [x82; x01; x02] 1 = Ok false).
Proof.
  destruct (inequality_not_negation [x82; x01; x02] eq_refl) as (Hs & Hi).
  split; [apply Hs | apply Hi]; reflexivity.
Defined.

(** ** The lenient integer conversion *)

Lemma size_skipn (k : N) (l : bytes) :
  size (skipn (N.to_nat k) l) = size l - k.
Proof. unfold size. rewrite length_skipn. lia. Qed.

(** The loop started behind a header of [l] length bytes reads the payload
    announced at offset [1 + l]. *)
Lemma toInt_loop_payload T c rest l s :
  l <= size rest ->
  toInt_loop T (skipn (N.to_nat l) rest) s 0 = payload_value T (c :: rest) (1 + l) s.
Proof.
  intros Hl. rewrite toInt_loop_spec. unfold payload_value, assemble.
  rewrite size_skipn, size_cons.
  replace (N.to_nat (1 + l)) with (S (N.to_nat l)) by lia. cbn [skipn].
  destruct (N.leb_spec s (size rest - l));
    destruct (N.leb_spec (1 + l + s) (1 + size rest)); try reflexivity; lia.
Qed.

Lemma toInt_loop_payload_0 T c rest s :
  toInt_loop T rest s 0 = payload_value T (c :: rest) 1 s.
Proof. apply (toInt_loop_payload T c rest 0). lia. Qed.

(** With an indirect count field, [items] returns only if the length
    bytes are in the view. *)
Lemma items_indirect_in_view c rest n :
  0x37 < val c mod 64 -> items (c :: rest) = Ok n ->
  val c mod 64 - 0x37 <= size rest.
Proof.
  rewrite items_cons. cbn zeta. intros Hm.
  destruct (N.ltb_spec (val c mod 64) 0x38); [lia|].
  destruct (N.leb_spec (val c mod 64 - 0x37) (size rest)); [easy|discriminate].
Qed.

(** The count behind an indirect count field is the big-endian value of
    the length bytes, which sit at offset 1 of the view. *)
Lemma items_indirect_value c rest :
  0x37 < val c mod 64 ->
  items (c :: rest) = payload_value T_uint (c :: rest) 1 (val c mod 64 - 0x37).
Proof.
  intros Hm. rewrite items_cons. cbn zeta. unfold payload_value.
  destruct (N.ltb_spec (val c mod 64) 0x38); [lia|].
  rewrite size_cons. change (N.to_nat 1) with 1%nat. cbn [skipn].
  rewrite assemble_big_endian.
  destruct (N.leb_spec (val c mod 64 - 0x37) (size rest));
    destruct (N.leb_spec (1 + (val c mod 64 - 0x37)) (1 + size rest));
    try reflexivity; lia.
Qed.

(** C3: the lenient [toInt] of a non-null node with first byte [b] is 0 if
    the node is neither an integer nor a string, [b] itself for a
    direct-value integer, and otherwise the big-endian shift-and-or
    assembly of the payload bytes: the [b - 0x17] bytes at offset 1 for an
    indirect-value integer; for an indirect-addressed integer the bytes
    behind the [b - 0x37] length bytes, as many as the big-endian value of
    those length bytes says; for a string the [b - 0x40] bytes at offset 1
    when the count is direct, and the bytes behind the [b - 0x77] length
    bytes, as many as their value says, when it is indirect. *)
Theorem toInt_lenient (T : IntT) (d : bytes) (b : N) :
  isNull d = false -> at_ d 0 = Ok b ->
  (isInt d = Ok false -> isString d = Ok false -> toInt T d = Ok 0)
  /\ (isDirectValueInt d = Ok true -> toInt T d = Ok b)
  /\ (isIndirectValueInt d = Ok true ->
      toInt T d = payload_value T d 1 (b - 0x17))
  /\ (isIndirectAddressedInt d = Ok true ->
      toInt T d =
      (n <- payload_value T_uint d 1 (b - 0x37) ;;
       payload_value T d (1 + (b - 0x37)) n))
  /\ (isString d = Ok true -> b < 0x78 ->
      toInt T d = payload_value T d 1 (b - 0x40))
  /\ (isString d = Ok true -> 0x78 <= b ->
      toInt T d =
      (n <- payload_value T_uint d 1 (b - 0x77) ;;
       payload_value T d (1 + (b - 0x77)) n)).
Proof.
  intros Hn Hb.
  destruct (nonnull_first d b Hn Hb) as (c & rest & -> & <-).
  rewrite toInt_cons. autorewrite with first_byte.
  pose proof (items_indirect_in_view c rest) as Hview.
  pose proof (items_indirect_value c rest) as Hcount.
  assert (Hfield : items (c :: rest) = items (c :: rest)) by reflexivity.
  rewrite items_cons in Hfield at 2. cbn zeta in Hfield.
  pose proof (val_bound c) as Hc.
  name_field c q m.
  split; [|split; [|split; [|split; [|split]]]].
  - clear Hfield Hcount. intros Hcat Hcat'.
    split_ranges; try discriminate; try reflexivity; exfalso; lia.
  - clear Hfield Hcount. intros Hcat. split_ranges; try discriminate.
    destruct T; unfold wrap; try reflexivity; f_equal; apply N.mod_small; lia.
  - clear Hfield Hcount. intros Hcat.
    split_ranges; try discriminate; try (exfalso; lia).
    apply toInt_loop_payload_0.
  - clear Hfield. intros Hcat.
    assert (Hr : 0x38 <= val c < 0x40) by (split_ranges; try discriminate; lia).
    clear Hcat.
    destruct (N.ltb_spec (val c) 0x18); [exfalso; lia|].
    destruct (N.ltb_spec (val c) 0x38); [exfalso; lia|].
    destruct (N.ltb_spec (val c) 0x40); [|exfalso; lia].
    replace (val c - 55) with (m - 55) by lia.
    rewrite <- Hcount by lia.
    destruct (items (c :: rest)) as [n| | |] eqn:Hi; cbn [bind]; try reflexivity.
    apply toInt_loop_payload. apply (Hview n); [lia|reflexivity].
  - intros Hcat Hb78.
    assert (Hr : 0x40 <= val c) by (clear Hfield; split_ranges; try discriminate; lia).
    clear Hcat Hcount.
    destruct (N.ltb_spec (val c) 0x18); [exfalso; lia|].
    destruct (N.ltb_spec (val c) 0x38); [exfalso; lia|].
    destruct (N.ltb_spec (val c) 0x40); [exfalso; lia|].
    destruct (N.ltb_spec (val c) 0x78); [|exfalso; lia].
    apply toInt_loop_payload_0.
  - clear Hfield. intros Hcat Hb78.
    assert (Hr : val c < 0x80) by (split_ranges; try discriminate; lia).
    clear Hcat.
    destruct (N.ltb_spec (val c) 0x18); [exfalso; lia|].
    destruct (N.ltb_spec (val c) 0x38); [exfalso; lia|].
    destruct (N.ltb_spec (val c) 0x40); [exfalso; lia|].
    destruct (N.ltb_spec (val c) 0x78); [exfalso; lia|].
    destruct (N.ltb_spec (val c) 0x80); [|exfalso; lia].
    replace (val c - 119) with (m - 55) by lia.
    rewrite <- Hcount by lia.
    destruct (items (c :: rest)) as [n| | |] eqn:Hi; cbn [bind]; try reflexivity.
    apply toInt_loop_payload. apply (Hview n); [lia|reflexivity].
Qed.

Lemma toInt_lenient_witness :
  toInt T_uint [x19; x01; x00] = Ok 256
  /\ toInt T_uint [x17] = Ok 23
  /\ toInt T_uint [x82; x01; x02] = Ok 0
  /\ toInt T_uint [x38; x01; x05] = Ok 5
  /\ toInt T_uint [x39; x00; x02; x01; x00] = Ok 256
  /\ toInt T_uint [x42; x01; x00] = Ok 256
  /\ toInt T_uint [x78; x01; x61] = Ok 97
  /\ toInt T_uint [x78; x02; x61] = OutOfRange.
Proof.
  destruct (toInt_lenient T_uint [x19; x01; x00] 0x19 eq_refl eq_refl)
    as (_ & _ & Hv & _).
  destruct (toInt_lenient T_uint [x17] 0x17 eq_refl eq_refl) as (_ & Hd & _).
  destruct (toInt_lenient T_uint [x82; x01; x02] 0x82 eq_refl eq_refl) as (Hz & _).
  destruct (toInt_lenient T_uint [x38; x01; x05] 0x38 eq_refl eq_refl)
    as (_ & _ & _ & Ha & _).
  destruct (toInt_lenient T_uint [x39; x00; x02; x01; x00] 0x39 eq_refl eq_refl)
    as (_ & _ & _ & Ha2 & _).
  destruct (toInt_lenient T_uint [x42; x01; x00] 0x42 eq_refl eq_refl)
    as (_ & _ & _ & _ & Hs & _).
  destruct (toInt_lenient T_uint [x78; x01; x61] 0x78 eq_refl eq_refl)
    as (_ & _ & _ & _ & _ & Hl).
  destruct (toInt_lenient T_uint [x78; x02; x61] 0x78 eq_refl eq_refl)
    as (_ & _ & _ & _ & _ & Ht).
  split; [rewrite (Hv eq_refl); reflexivity|].
  split; [apply Hd; reflexivity|].
  split; [apply Hz; reflexivity|].
  split; [rewrite (Ha eq_refl); reflexivity|].
  split; [rewrite (Ha2 eq_refl); reflexivity|].
  split; [rewrite (Hs eq_refl eq_refl); reflexivity|].
  split; [rewrite (Hl eq_refl); [reflexivity | discriminate]|].
  rewrite (Ht eq_refl); [reflexivity | discriminate].
Defined.

(** ** Nodes that announce more bytes than the view holds *)

Lemma payload_value_fits T d o s :
  payload_value T d o s <> OutOfRange <-> o + s <= size d.
Proof.
  unfold payload_value.
  destruct (N.leb_spec (o + s) (size d)); split; try discriminate; try lia.
  congruence.
Qed.

Lemma toInt_loop_cases T rest s :
  (s <= size rest /\ exists v, toInt_loop T rest s 0 = Ok v)
  \/ (size rest < s /\ toInt_loop T rest s 0 = OutOfRange).
Proof.
  rewrite toInt_loop_spec.
  destruct (N.leb_spec s (size rest)); [left|right]; eauto.
Qed.

(** [toInt] on an Integer or String node returns or leaves the view,
    according to [fits]. *)
Lemma toInt_fits T c rest :
  val c < 0x80 ->
  (fits (c :: rest) = true /\ exists v, toInt T (c :: rest) = Ok v)
  \/ (fits (c :: rest) = false /\ toInt T (c :: rest) = OutOfRange).
Proof.
  intros Hlt. unfold fits, announced_end.
  rewrite toInt_cons, lengthSize_cons, size_cons.
  pose proof (items_indirect_in_view c rest) as Hview.
  assert (Hfield : items (c :: rest) = items (c :: rest)) by reflexivity.
  rewrite items_cons in Hfield at 2; cbn zeta in Hfield.
  name_field c q m.
  destruct (N.ltb_spec (val c) 0x18).
  { left. split; [apply N.leb_le; lia | eauto]. }
  destruct (N.ltb_spec (val c) 0x38).
  { destruct (toInt_loop_cases T rest (val c - 23)) as [[Hs Hv]|[Hs Hv]];
      [left|right]; (split; [|assumption]).
    - apply N.leb_le. lia.
    - apply N.leb_gt. lia. }
  destruct (N.ltb_spec m 0x38) as [Hm|Hm].
  - assert (Hc : 0x40 <= val c < 0x78) by lia.
    destruct (N.ltb_spec (val c) 0x40); [exfalso; lia|].
    destruct (N.ltb_spec (val c) 0x78); [|exfalso; lia].
    destruct (N.ltb_spec 0x37 m); [exfalso; lia|].
    rewrite Hfield. replace (val c - 64) with m by lia.
    destruct (toInt_loop_cases T rest m) as [[Hs Hv]|[Hs Hv]];
      [left|right]; (split; [|assumption]).
    + apply N.leb_le. lia.
    + apply N.leb_gt. lia.
  - clear Hfield.
    destruct (N.ltb_spec 0x37 m); [|exfalso; lia].
    destruct (N.ltb_spec (val c) 0x40).
    2: destruct (N.ltb_spec (val c) 0x78); [exfalso; lia|].
    2: destruct (N.ltb_spec (val c) 0x80); [|exfalso; lia].
    1: replace (val c - 55) with (m - 55) by lia.
    2: replace (val c - 119) with (m - 55) by lia.
    all: destruct (items (c :: rest)) as [n| | |] eqn:Hi; cbn [bind];
      try (right; split; reflexivity);
      try (now apply items_not_BadCast in Hi);
      try (now apply items_not_AssertFail in Hi).
    all: specialize (Hview n ltac:(lia) eq_refl).
    all: destruct (toInt_loop_cases T (skipn (N.to_nat (m - 55)) rest) n)
        as [[Hs Hv]|[Hs Hv]]; rewrite size_skipn in Hs;
        [left|right]; (split; [|assumption]).
    all: try (apply N.leb_le; lia); try (apply N.leb_gt; lia).
Qed.

(** C1, as the code has it: for a non-null Integer or String node whose
    prefix announces more bytes than the view holds, the lenient [toInt]
    of every width does not throw [BadCast]; it indexes the view beyond
    its end.  It returns a value exactly when the announced bytes lie
    inside the view. *)
Theorem toInt_past_the_view (T : IntT) (d : bytes) :
  isNull d = false -> (isInt d = Ok true \/ isString d = Ok true) ->
  (fits d = false -> toInt T d = OutOfRange)
  /\ (fits d = true -> exists v, toInt T d = Ok v)
  /\ toInt T d <> BadCast.
Proof.
  intros Hn Hcat. destruct (nonnull_has_first d Hn) as (c & rest & ->).
  assert (Hlt : val c < 0x80).
  { rewrite isInt_cons, isString_cons in Hcat.
    destruct Hcat as [Hcat|Hcat]; split_ranges; try discriminate; lia. }
  split; [|split; [|apply toInt_not_BadCast]];
    destruct (toInt_fits T c rest Hlt) as [[Hf Hv]|[Hf Hv]];
    rewrite Hf; intros Hfits; try discriminate; assumption.
Qed.

Lemma toInt_past_the_view_witness :
  fits [x19; x01] = false /\ toInt T_u256 [x19; x01] = OutOfRange.
Proof.
  split; [reflexivity|].
  apply (toInt_past_the_view T_u256 [x19; x01]);
    [reflexivity | left; reflexivity | reflexivity].
Defined.

(** The node [[0x19; 0x01]] announces two payload bytes and holds one:
    [toInt] does not signal the type mismatch there. *)
Lemma toInt_no_BadCast_on_overrun :
  isNull [x19; x01] = false
  /\ isInt [x19; x01] = Ok true
  /\ fits [x19; x01] = false
  /\ toInt T_uint [x19; x01] <> BadCast
  /\ toInt T_uint [x19; x01] = OutOfRange.
Proof. repeat split; try reflexivity. vm_compute. discriminate. Qed.

(** ** The encoder: byte counts *)

Import RLPStream.

Lemma bytesRequired_loop_unfold (_i i : N) :
  bytesRequired_loop _i i =
  if _i =? 0 then i else bytesRequired_loop (N.shiftr _i 8) (uint (i + 1)).
Proof.
  rewrite bytesRequired_loop_equation_1.
  destruct (N.eq_dec _i 0) as [->|Hne]; cbn.
  - reflexivity.
  - destruct (N.eqb_spec _i 0); [contradiction|reflexivity].
Qed.

(** The loop adds to its counter the number of bytes of [_i]: the least
    [j] with [_i < 256 ^ j]. *)
Lemma bytesRequired_loop_spec (k : nat) :
  forall _i i, _i < 256 ^ N.of_nat k -> i + N.of_nat k < 2 ^ 64 ->
  exists j, j <= N.of_nat k
            /\ bytesRequired_loop _i i = i + j
            /\ _i < 256 ^ j
            /\ (j = 0 \/ 256 ^ (j - 1) <= _i).
Proof.
  induction k as [|k IH]; intros _i i Hlt Hi; rewrite bytesRequired_loop_unfold.
  - cbn in Hlt. assert (_i = 0) as -> by lia.
    exists 0. cbn. repeat split; try lia; auto.
  - destruct (N.eqb_spec _i 0) as [->|Hne].
    + exists 0. cbn. repeat split; try lia; auto.
    + rewrite N.shiftr_div_pow2. change (2 ^ 8) with 256.
      replace (N.of_nat (S k)) with (N.of_nat k + 1) in * by lia.
      rewrite N.pow_add_r, N.pow_1_r in Hlt.
      assert (Hdiv : _i / 256 < 256 ^ N.of_nat k)
        by (apply N.Div0.div_lt_upper_bound; lia).
      rewrite uint_small by lia.
      destruct (IH (_i / 256) (i + 1) Hdiv ltac:(lia)) as (j & Hj & Hr & Hup & Hlow).
      exists (j + 1). repeat split; try lia.
      * rewrite N.pow_add_r, N.pow_1_r.
        pose proof (N.div_mod _i 256 ltac:(lia)) as Hdm.
        pose proof (N.mod_lt _i 256 ltac:(lia)) as Hm.
        remember (_i / 256) as h. remember (_i mod 256) as r. nia.
      * right. replace (j + 1 - 1) with j by lia.
        destruct (N.eq_dec j 0) as [->|Hj0]; [rewrite N.pow_0_r; lia|].
        destruct Hlow as [->|Hlow]; [lia|].
        replace j with (j - 1 + 1) by lia.
        rewrite N.pow_add_r, N.pow_1_r.
        pose proof (N.div_mod _i 256 ltac:(lia)) as Hdm.
        remember (_i / 256) as h. remember (_i mod 256) as r. nia.
Qed.

(** For a value that is not zero, [bytesRequired] is the least byte count
    that holds it. *)
Lemma bytesRequired_least (k : nat) (v : N) :
  0 < v -> v < 256 ^ N.of_nat k -> N.of_nat k < 2 ^ 64 ->
  let b := bytesRequired v in
  1 <= b <= N.of_nat k /\ v < 256 ^ b /\ 256 ^ (b - 1) <= v.
Proof.
  intros Hpos Hlt Hk. unfold bytesRequired. cbn zeta.
  destruct k as [|k]; [cbn in Hlt; lia|].
  replace (N.of_nat (S k)) with (N.of_nat k + 1) in * by lia.
  rewrite N.pow_add_r, N.pow_1_r in Hlt.
  rewrite N.shiftr_div_pow2. change (2 ^ 8) with 256.
  assert (Hdiv : v / 256 < 256 ^ N.of_nat k)
    by (apply N.Div0.div_lt_upper_bound; lia).
  destruct (bytesRequired_loop_spec k (v / 256) 1 Hdiv ltac:(lia))
    as (j & Hj & -> & Hup & Hlow).
  pose proof (N.div_mod v 256 ltac:(lia)) as Hdm.
  pose proof (N.mod_lt v 256 ltac:(lia)) as Hm.
  replace (1 + j - 1) with j by lia.
  replace (1 + j) with (j + 1) by lia.
  rewrite N.pow_add_r, N.pow_1_r.
  remember (v / 256) as h. remember (v mod 256) as r.
  repeat split; try lia; try nia.
  destruct (N.eq_dec j 0) as [->|Hj0]; [rewrite N.pow_0_r in *; lia|].
  destruct Hlow as [->|Hlow]; [lia|].
  replace j with (j - 1 + 1) by lia.
  rewrite N.pow_add_r, N.pow_1_r. nia.
Qed.

(** C7, at the input where the code leaves its documentation:
    [bytesRequired] is documented to return 0 for zero, and returns 1. *)
Theorem bytesRequired_zero : bytesRequired 0 = 1 /\ bytesRequired 0 <> 0.
Proof. split; [reflexivity|discriminate]. Qed.

(** ** The encoder: writing a count *)

Lemma val_to_byte (x : N) : val (to_byte x) = x mod 256.
Proof.
  unfold val, to_byte.
  destruct (Byte.of_N (x mod 256)) as [b|] eqn:E.
  - now apply Byte.to_of_N in E.
  - apply Byte.of_N_None_iff in E.
    pose proof (N.mod_lt x 256 ltac:(discriminate)). lia.
Qed.

Lemma be_value_snoc (l : bytes) (b : byte) :
  be_value (l ++ [b]) = be_value l * 256 + val b.
Proof. unfold be_value. now rewrite fold_left_app. Qed.

Lemma length_be_bytes (k : nat) (n : N) : length (be_bytes k n) = k.
Proof.
  revert n. induction k as [|k IH]; intros n; cbn [be_bytes]; [reflexivity|].
  rewrite length_app, IH. cbn. lia.
Qed.

Lemma be_value_be_bytes (k : nat) (n : N) :
  be_value (be_bytes k n) = n mod 256 ^ N.of_nat k.
Proof.
  revert n. induction k as [|k IH]; intros n; cbn [be_bytes].
  - cbn. now rewrite N.mod_1_r.
  - rewrite be_value_snoc, IH, val_to_byte.
    replace (N.of_nat (S k)) with (1 + N.of_nat k) by lia.
    rewrite N.pow_add_r, N.pow_1_r, N.Div0.mod_mul_r. lia.
Qed.

Lemma be_bytes_0 (k : nat) : be_bytes k 0 = repeat x00 k.
Proof.
  induction k as [|k IH]; [reflexivity|].
  cbn [be_bytes]. change (0 / 256) with 0. rewrite IH.
  change (to_byte 0) with x00. now rewrite <- repeat_cons.
Qed.

Lemma store_middle (pre suf : bytes) (x v : byte) :
  store (pre ++ x :: suf) (length pre) v = pre ++ v :: suf.
Proof. induction pre as [|h pre IH]; cbn; [reflexivity|now rewrite IH]. Qed.

Lemma pushInt_loop_unfold (room : nat) (m_out : bytes) (_i : N) :
  pushInt_loop room m_out _i =
  if _i =? 0 then Ok m_out
  else match room with
       | O => OutOfRange
       | S p => pushInt_loop p (store m_out p (to_byte _i)) (N.shiftr _i 8)
       end.
Proof. destruct room; reflexivity. Qed.

(** Into [br] fresh zero bytes behind [pre], the loop writes the [br]
    big-endian bytes of a value that needs no more than [br] bytes. *)
Lemma pushInt_loop_spec (br : nat) :
  forall (pre suf : bytes) (n : N),
    n < 256 ^ N.of_nat br ->
    pushInt_loop (length pre + br) (pre ++ repeat x00 br ++ suf) n =
    Ok (pre ++ be_bytes br n ++ suf).
Proof.
  induction br as [|br IH]; intros pre suf n Hn; rewrite pushInt_loop_unfold.
  - cbn in Hn. assert (n = 0) as -> by lia. reflexivity.
  - destruct (N.eqb_spec n 0) as [->|Hne]; [now rewrite be_bytes_0|].
    replace (length pre + S br)%nat with (S (length pre + br)) by lia.
    replace (repeat x00 (S br)) with (repeat x00 br ++ [x00])
      by (now rewrite <- repeat_cons).
    replace (pre ++ (repeat x00 br ++ [x00]) ++ suf)
      with ((pre ++ repeat x00 br) ++ x00 :: suf)
      by (now rewrite <- !app_assoc).
    replace (length pre + br)%nat with (length (pre ++ repeat x00 br)) at 2
      by (now rewrite length_app, repeat_length).
    rewrite store_middle, <- app_assoc.
    rewrite N.shiftr_div_pow2. change (2 ^ 8) with 256.
    rewrite IH.
    + cbn [be_bytes]. now rewrite <- !app_assoc.
    + replace (N.of_nat (S br)) with (N.of_nat br + 1) in Hn by lia.
      rewrite N.pow_add_r, N.pow_1_r in Hn.
      apply N.Div0.div_lt_upper_bound. lia.
Qed.

Lemma pushInt_spec (m_out : bytes) (n br : N) :
  n < 256 ^ br -> pushInt m_out n br = Ok (m_out ++ be_bytes (N.to_nat br) n).
Proof.
  intros Hn. unfold pushInt. rewrite length_app, repeat_length.
  pose proof (pushInt_loop_spec (N.to_nat br) m_out [] n) as H.
  rewrite !app_nil_r, N2Nat.id in H. now apply H.
Qed.

(** An indirect count: the header byte and the big-endian count. *)
Lemma pushCount_spec (m_out : bytes) (n base : N) :
  0 < n < 2 ^ 64 ->
  let br := bytesRequired n in
  1 <= br <= 8
  /\ pushCount m_out n base =
     Ok (m_out ++ to_byte (br + 0x37 + base) :: be_bytes (N.to_nat br) n)
  /\ n < 256 ^ br.
Proof.
  intros [Hpos Hlt]. cbn zeta.
  destruct (bytesRequired_least 8 n Hpos) as ((Hb1 & Hb8) & Hup & _);
    [exact Hlt | reflexivity |].
  change (N.of_nat 8) with 8 in Hb8.
  repeat split; try assumption.
  unfold pushCount, push_back. rewrite pushInt_spec by assumption.
  now rewrite <- app_assoc.
Qed.

(** ** Strings: encode, then decode *)

Lemma firstn_exact (a b : bytes) : firstn (length a) (a ++ b) = a.
Proof. now rewrite firstn_app, firstn_all, Nat.sub_diag, app_nil_r. Qed.

Lemma skipn_exact (a b : bytes) : skipn (length a) (a ++ b) = b.
Proof. now rewrite skipn_app, skipn_all, Nat.sub_diag. Qed.

Lemma cropped_all (s : string_) : cropped s 0 (size s) = s.
Proof.
  unfold cropped. rewrite N.add_0_l, N.leb_refl. cbn [skipn N.to_nat].
  unfold size. now rewrite Nat2N.id, firstn_all.
Qed.

(** Decoding a string node with a direct count. *)
Lemma toString_direct (h : byte) (s : string_) :
  val h = 0x40 + size s -> size s <= 0x37 ->
  isString (h :: s) = Ok true /\ toString (h :: s) = Ok s.
Proof.
  intros Hh Hs.
  assert (His : isString (h :: s) = Ok true)
    by (rewrite isString_cons; split_ranges; try reflexivity; lia).
  split; [exact His|].
  unfold toString, payload. rewrite His, at_0_cons.
  cbn [bind negb]. rewrite land_3f, items_cons. cbn zeta.
  name_field h q m.
  assert (m = size s) as -> by lia.
  destruct (N.ltb_spec (size s) 0x38); [|lia].
  unfold cropped_from. rewrite size_cons.
  destruct (N.leb_spec (1 + 0) (1 + size s)); [|lia].
  change (N.to_nat (1 + 0)) with 1%nat. cbn [skipn bind].
  now rewrite cropped_all.
Qed.

(** Decoding a string node whose count is held in [br] length bytes. *)
Lemma toString_indirect (h : byte) (br : N) (s : string_) :
  1 <= br <= 8 -> val h = br + 0x77 -> size s < 256 ^ br ->
  let e := h :: be_bytes (N.to_nat br) (size s) ++ s in
  isString e = Ok true /\ toString e = Ok s.
Proof.
  intros Hbr Hh Hs. cbn zeta.
  set (lb := be_bytes (N.to_nat br) (size s)).
  assert (Hlen : length lb = N.to_nat br) by apply length_be_bytes.
  assert (His : isString (h :: lb ++ s) = Ok true)
    by (rewrite isString_cons; split_ranges; try reflexivity; lia).
  split; [exact His|].
  unfold toString, payload. rewrite His, at_0_cons.
  cbn [bind negb]. rewrite land_3f, items_cons. cbn zeta.
  name_field h q m.
  assert (m = br + 0x37) as -> by lia.
  destruct (N.ltb_spec (br + 0x37) 0x38); [lia|].
  replace (br + 0x37 - 0x37) with br by lia.
  rewrite size_app. unfold size at 1. rewrite Hlen, N2Nat.id.
  destruct (N.leb_spec br (br + size s)); [|lia].
  rewrite <- Hlen, firstn_exact. unfold lb at 1.
  rewrite be_value_be_bytes, N2Nat.id, (N.mod_small _ _ Hs).
  cbn [bind].
  unfold cropped_from. rewrite size_cons, size_app.
  unfold size at 1. rewrite Hlen, N2Nat.id.
  destruct (N.leb_spec (1 + br) (1 + (br + size s))); [|lia].
  replace (N.to_nat (1 + br)) with (S (length lb)) by lia.
  cbn [skipn]. rewrite skipn_exact.
  rewrite uint_small.
  - now rewrite cropped_all.
  - apply N.lt_le_trans with (1 := Hs).
    change (2 ^ 64) with (256 ^ 8). apply N.pow_le_mono_r; lia.
Qed.

(** C8: decoding what [append(s)] wrote gives a String node whose
    [toString()] is [s], for every string (a [std::string] has a size that
    fits [uint]), the empty one included; the empty string is encoded as
    the single byte 0x40 and "dog" as 0x43 'd' 'o' 'g'. *)
Theorem string_round_trip :
  (forall s : string_, size s < 2 ^ 64 ->
     exists e, append [] s = Ok e /\ isString e = Ok true /\ toString e = Ok s)
  /\ append [] [] = Ok [x40]
  /\ append [] ["d"; "o"; "g"]%byte = Ok [x43; "d"; "o"; "g"]%byte.
Proof.
  split; [|split; reflexivity].
  intros s Hs. unfold append.
  destruct (N.leb_spec (size s) 0x37) as [Hd|Hi]; cbn [bind].
  - unfold push_back. cbn [app].
    eexists. split; [reflexivity|].
    apply toString_direct; [|assumption].
    rewrite val_to_byte. apply N.mod_small. lia.
  - destruct (pushCount_spec [] (size s) 0x40 ltac:(lia)) as (Hbr & -> & Hup).
    cbn [bind app].
    eexists. split; [reflexivity|].
    apply toString_indirect; try assumption.
    rewrite val_to_byte. rewrite N.mod_small; lia.
Qed.

Lemma string_round_trip_witness :
  size (repeat "a"%byte 60) < 2 ^ 64
  /\ exists e, append [] (repeat "a"%byte 60) = Ok e
               /\ isString e = Ok true
               /\ toString e = Ok (repeat "a"%byte 60).
Proof.
  assert (H : size (repeat "a"%byte 60) < 2 ^ 64) by reflexivity.
  split; [exact H|].
  exact (proj1 string_round_trip (repeat "a"%byte 60) H).
Defined.

(** * Further properties of the header's functions *)

(** ** Integer tiers *)

Lemma isFixedInt_cons c rest : isFixedInt (c :: rest) = Ok (val c <? 0x38).
Proof. by_first_byte. Qed.

Lemma isBigInt_cons c rest :
  isBigInt (c :: rest) = Ok ((0x38 <=? val c) && (val c <? 0x40))%bool.
Proof. by_first_byte. Qed.

Lemma isSmallString_cons c rest :
  isSmallString (c :: rest) = Ok ((0x40 <=? val c) && (val c <? 0x78))%bool.
Proof.
  cbv [isSmallString assert_not_null isNull and_then bind].
  cbn [size length at_ nth_error N.to_nat N.of_nat N.eqb].
  split_ranges; reflexivity.
Qed.

Lemma isSmallList_cons c rest :
  isSmallList (c :: rest) = Ok ((0x80 <=? val c) && (val c <? 0xb8))%bool.
Proof.
  cbv [isSmallList assert_not_null isNull and_then bind].
  cbn [size length at_ nth_error N.to_nat N.of_nat N.eqb].
  split_ranges; reflexivity.
Qed.

Create Rewrite HintDb tiers.

#[local] Hint Rewrite isFixedInt_cons isBigInt_cons isSmallString_cons
  isSmallList_cons : tiers.

(** Turn equations between decided range tests into arithmetic. *)
Ltac decide_ranges :=
  autorewrite with first_byte tiers in *;
  unfold exactly_one in *;
  split_ranges;
  repeat match goal with
         | H : Ok _ = Ok _ |- _ => injection H as H
         end;
  try discriminate; try lia;
  intuition (try discriminate; try congruence; try lia).

(** X1: an integer node is in exactly one of the three width tiers
    [isSlimInt], [isFatInt], [isBigInt], a node that is not an integer is
    in none, and [isFixedInt] is the union of the first two. *)
Theorem int_width_tiers (d : bytes) :
  isNull d = false ->
  (isInt d = Ok true <->
   exactly_one (isSlimInt d = Ok true) (isFatInt d = Ok true) (isBigInt d = Ok true))
  /\ (isInt d = Ok false ->
      isSlimInt d = Ok false /\ isFatInt d = Ok false /\ isBigInt d = Ok false)
  /\ (isFixedInt d = Ok true <-> isSlimInt d = Ok true \/ isFatInt d = Ok true).
Proof.
  intros Hn. destruct (nonnull_has_first d Hn) as (c & rest & ->).
  repeat split; intros; decide_ranges.
Qed.

Lemma int_width_tiers_witness :
  isNull [x20; x01] = false
  /\ exactly_one (isSlimInt [x20; x01] = Ok true) (isFatInt [x20; x01] = Ok true)
       (isBigInt [x20; x01] = Ok true).
Proof.
  split; [reflexivity|].
  apply (int_width_tiers [x20; x01]); reflexivity.
Defined.

(** X2: the value tiers split the integers the same way: an integer node
    is exactly one of direct-value, indirect-value and indirect-addressed;
    direct values are slim, [isFixedInt] is direct or indirect value, and
    [isBigInt] coincides with indirect-addressed. *)
Theorem int_value_tiers (d : bytes) :
  isNull d = false ->
  (isInt d = Ok true <->
   exactly_one (isDirectValueInt d = Ok true) (isIndirectValueInt d = Ok true)
     (isIndirectAddressedInt d = Ok true))
  /\ (isDirectValueInt d = Ok true -> isSlimInt d = Ok true)
  /\ (isFixedInt d = Ok true <->
      isDirectValueInt d = Ok true \/ isIndirectValueInt d = Ok true)
  /\ isBigInt d = isIndirectAddressedInt d.
Proof.
  intros Hn. destruct (nonnull_has_first d Hn) as (c & rest & ->).
  repeat split; intros; decide_ranges.
Qed.

Lemma int_value_tiers_witness :
  isNull [x38; x01; x05] = false
  /\ isBigInt [x38; x01; x05] = isIndirectAddressedInt [x38; x01; x05].
Proof.
  split; [reflexivity|].
  apply (int_value_tiers [x38; x01; x05]); reflexivity.
Defined.

(** ** The header: length bytes and payload *)

(** X3: [lengthSize] has no null check and reads index 0 of a null node;
    on a non-null node it returns at most 8, and it returns 0 exactly for
    the direct tiers: [isSmallString] among strings, [isSmallList] among
    lists, [isFixedInt] among integers. *)
Theorem lengthSize_range (d : bytes) :
  (isNull d = true -> lengthSize d = OutOfRange)
  /\ (isNull d = false ->
      exists l, lengthSize d = Ok l /\ l <= 8
        /\ (isString d = Ok true -> (l = 0 <-> isSmallString d = Ok true))
        /\ (isList d = Ok true -> (l = 0 <-> isSmallList d = Ok true))
        /\ (isInt d = Ok true -> (l = 0 <-> isFixedInt d = Ok true))).
Proof.
  destruct d as [|c rest]; (split; [|intros Hn]); try discriminate; try reflexivity.
  rewrite lengthSize_cons. eexists. split; [reflexivity|].
  pose proof (val_bound c) as Hc.
  name_field c q m.
  repeat split; intros; decide_ranges.
Qed.

Lemma lengthSize_range_witness :
  lengthSize [] = OutOfRange
  /\ exists l, lengthSize [x79; x01; x00] = Ok l /\ l <= 8.
Proof.
  split.
  - apply (lengthSize_range []). reflexivity.
  - destruct (proj2 (lengthSize_range [x79; x01; x00]) eq_refl)
      as (l & Hl & Hle & _).
    exists l. split; assumption.
Defined.

Lemma payload_behind_header (d : bytes) (l : N) :
  lengthSize d = Ok l -> payload d = Ok (skipn (N.to_nat (1 + l)) d).
Proof.
  destruct d as [|c rest]; [discriminate|].
  rewrite lengthSize_cons. unfold payload. rewrite at_0_cons. cbn [bind].
  rewrite land_3f. pose proof (val_bound c) as Hc. name_field c q m.
  intros [= <-].
  assert (Hsame : (if m <? 56 then 0 else m - 55) = (if 55 <? m then m - 55 else 0))
    by (split_ranges; lia).
  rewrite Hsame. unfold cropped_from.
  destruct (N.leb_spec (1 + (if 55 <? m then m - 55 else 0)) (size (c :: rest)));
    [reflexivity|].
  f_equal. symmetry. apply skipn_all2. unfold size in *. lia.
Qed.

(** X4: [payload] and [lengthSize] agree on where the header ends:
    [payload()] is the view without its first [1 + lengthSize()] bytes, so
    it starts at the offset from which [toInt] reads. *)
Theorem payload_skips_header (d : bytes) (l : N) :
  lengthSize d = Ok l ->
  payload d = Ok (skipn (N.to_nat (1 + l)) d)
  /\ (forall p, payload d = Ok p -> size p = size d - (1 + l)).
Proof.
  intros Hl. rewrite (payload_behind_header d l Hl).
  split; [reflexivity|]. intros p [= <-]. apply size_skipn.
Qed.

Lemma payload_skips_header_witness :
  lengthSize [x78; x01; x61] = Ok 1
  /\ payload [x78; x01; x61] = Ok [x61].
Proof.
  split; [reflexivity|].
  apply (payload_skips_header [x78; x01; x61] 1). reflexivity.
Defined.

(** X5: [isEmpty] holds exactly for the direct-count string or list with
    a count of zero; an empty string or list written with the indirect
    count tier is not recognised. *)
Theorem isEmpty_iff_small_and_no_items (d : bytes) :
  isNull d = false ->
  (isEmpty d = Ok true <->
   (isSmallString d = Ok true \/ isSmallList d = Ok true) /\ items d = Ok 0).
Proof.
  intros Hn. destruct (nonnull_has_first d Hn) as (c & rest & ->).
  rewrite items_cons. cbn zeta.
  pose proof (val_bound c) as Hc. name_field c q m.
  split; intros Hyp.
  - assert (Hv : val c = 0x40 \/ val c = 0x80) by decide_ranges.
    assert (m = 0) as -> by lia.
    split; [|reflexivity]. destruct Hv; [left|right]; decide_ranges.
  - destruct Hyp as [Hs Hi].
    assert (Hm : m = 0).
    { destruct (N.ltb_spec m 56); [congruence|].
      destruct (_ <=? _); [|discriminate].
      destruct Hs; decide_ranges. }
    subst m. clear Hi. destruct Hs; decide_ranges.
Qed.

Lemma isEmpty_iff_small_and_no_items_witness :
  isNull [x78; x00] = false
  /\ items [x78; x00] = Ok 0 /\ isString [x78; x00] = Ok true
  /\ isEmpty [x78; x00] <> Ok true.
Proof.
  split; [reflexivity|]. split; [reflexivity|]. split; [reflexivity|].
  intros H.
  apply (isEmpty_iff_small_and_no_items [x78; x00] eq_refl) in H.
  destruct H as [[H|H] _]; discriminate H.
Defined.

(** ** Strict string conversions *)

(** X6: [toStringStrict] throws [BadCast] exactly on a node that is not a
    string, and on a string it does what [toString] does. *)
Theorem toStringStrict_vs_toString (d : bytes) :
  isNull d = false ->
  (toStringStrict d = BadCast <-> isString d = Ok false)
  /\ (isString d = Ok true -> toStringStrict d = toString d)
  /\ (isString d = Ok false -> toString d = Ok []).
Proof.
  intros Hn. destruct (nonnull_has_first d Hn) as (c & rest & ->).
  pose proof (toString_not_BadCast (c :: rest)) as Hnb.
  unfold toStringStrict, toString in *. rewrite isString_cons in *.
  destruct ((0x40 <=? val c) && (val c <? 0x80))%bool; cbn [bind negb] in *;
    repeat split; try discriminate; try reflexivity; try congruence.
Qed.

Lemma toStringStrict_vs_toString_witness :
  isNull [x19; x01; x00] = false
  /\ toStringStrict [x19; x01; x00] = BadCast
  /\ toString [x19; x01; x00] = Ok [].
Proof.
  split; [reflexivity|].
  destruct (toStringStrict_vs_toString [x19; x01; x00] eq_refl) as (Hs & _ & Hl).
  split; [apply Hs | apply Hl]; reflexivity.
Defined.

(** X7: the [to...IntFromString] conversions throw [BadCast] exactly on a
    node that is not a string and otherwise give [toInt] of their width;
    so on no node do both [toBigIntStrict] and [toBigIntFromString]
    get past their check. *)
Theorem int_from_string_strictness (d : bytes) :
  isNull d = false ->
  (toSlimIntFromString d = BadCast <-> isString d = Ok false)
  /\ (toFatIntFromString d = BadCast <-> isString d = Ok false)
  /\ (toBigIntFromString d = BadCast <-> isString d = Ok false)
  /\ (isString d = Ok true ->
      toSlimIntFromString d = toInt T_uint d
      /\ toFatIntFromString d = toInt T_u256 d
      /\ toBigIntFromString d = toInt T_bigint d)
  /\ (toBigIntStrict d = BadCast \/ toBigIntFromString d = BadCast).
Proof.
  intros Hn. destruct (nonnull_has_first d Hn) as (c & rest & ->).
  pose proof (toInt_not_BadCast T_uint (c :: rest)).
  pose proof (toInt_not_BadCast T_u256 (c :: rest)).
  pose proof (toInt_not_BadCast T_bigint (c :: rest)).
  unfold toSlimIntFromString, toFatIntFromString, toBigIntFromString,
    toBigIntStrict.
  rewrite isString_cons, isInt_cons. cbn [bind].
  repeat split; intros; split_ranges;
    try discriminate; try reflexivity; try congruence; try lia; auto.
Qed.

Lemma int_from_string_strictness_witness :
  isNull [x42; x01; x00] = false
  /\ toSlimIntFromString [x42; x01; x00] = toInt T_uint [x42; x01; x00]
  /\ toInt T_uint [x42; x01; x00] = Ok 256
  /\ toBigIntStrict [x42; x01; x00] = BadCast.
Proof.
  split; [reflexivity|].
  destruct (int_from_string_strictness [x42; x01; x00] eq_refl)
    as (_ & _ & _ & Hs & _).
  split; [apply Hs; reflexivity|].
  split; reflexivity.
Defined.

(** ** Comparison operators on a matching category *)

(** X8: where the category matches the kind of the literal,
    [operator!=] is the negation of [operator==]: on a string node for a
    string literal, on an integer or string node for an integer literal. *)
Theorem inequality_negates_on_match (d : bytes) :
  isNull d = false ->
  (forall s, isString d = Ok true -> ne_string d s = not_ (eq_string d s))
  /\ (forall T i, isInt d = Ok true \/ isString d = Ok true ->
                  ne_int T d i = not_ (eq_int T d i)).
Proof.
  intros _. split.
  - intros s Hs. unfold ne_string, eq_string, and_then, not_. rewrite Hs.
    cbn [bind]. destruct (toString d); reflexivity.
  - intros T i Hcat. unfold ne_int, eq_int, and_then, or_else, not_.
    assert (Hor : (x <- isInt d ;; (if x then Ok true else isString d)) = Ok true).
    { destruct Hcat as [-> | Hs]; [reflexivity|].
      destruct d as [|c rest]; [discriminate|].
      rewrite isInt_cons in *. rewrite Hs. cbn [bind]. now destruct (_ <? _). }
    rewrite Hor. cbn [bind]. destruct (toInt T d); reflexivity.
Qed.

Lemma inequality_negates_on_match_witness :
  isNull [x43; x64; x6f; x67] = false
  /\ ne_string [x43; x64; x6f; x67] [x64; x6f; x67] = Ok false
  /\ ne_int T_uint [x19; x01; x00] 255 = Ok true.
Proof.
  split; [reflexivity|].
  destruct (inequality_negates_on_match [x43; x64; x6f; x67] eq_refl) as (Hs & _).
  destruct (inequality_negates_on_match [x19; x01; x00] eq_refl) as (_ & Hi).
  split.
  - rewrite (Hs [x64; x6f; x67] eq_refl). reflexivity.
  - rewrite (Hi T_uint 255 (or_introl eq_refl)). reflexivity.
Defined.

(** ** Nodes that are neither integer nor string *)

(** X9: on a non-null node that is neither an integer nor a string (a
    list, or a first byte from 0xC0 on) every lenient scalar conversion
    returns its default and every strict scalar conversion throws
    [BadCast]. *)
Theorem no_scalar_from_list (d : bytes) :
  isNull d = false -> isInt d = Ok false -> isString d = Ok false ->
  (toString d = Ok [] /\ stringSize d = Ok 0
   /\ toSlimInt d = Ok 0 /\ toFatInt d = Ok 0 /\ toBigInt d = Ok 0)
  /\ (toStringStrict d = BadCast
      /\ toSlimIntStrict d = BadCast /\ toFatIntStrict d = BadCast
      /\ toBigIntStrict d = BadCast
      /\ toSlimIntFromString d = BadCast /\ toFatIntFromString d = BadCast
      /\ toBigIntFromString d = BadCast).
Proof.
  intros Hn Hi Hs. destruct (nonnull_has_first d Hn) as (c & rest & ->).
  unfold toSlimInt, toFatInt, toBigInt. rewrite !toInt_cons.
  unfold toString, stringSize, toStringStrict, toSlimIntStrict, toFatIntStrict,
    toBigIntStrict, toSlimIntFromString, toFatIntFromString, toBigIntFromString.
  rewrite Hi, Hs. cbn [bind negb].
  rewrite isInt_cons, isString_cons in *.
  autorewrite with first_byte. unfold and_then, not_, bind.
  assert (0x80 <= val c) by (split_ranges; try discriminate; lia).
  clear Hi Hs.
  repeat split; split_ranges; try reflexivity; exfalso; lia.
Qed.

Lemma no_scalar_from_list_witness :
  isNull [x82; x01; x02] = false
  /\ toBigInt [x82; x01; x02] = Ok 0
  /\ toBigIntStrict [x82; x01; x02] = BadCast.
Proof.
  split; [reflexivity|].
  destruct (no_scalar_from_list [x82; x01; x02] eq_refl eq_refl eq_refl)
    as ((_ & _ & _ & _ & Hl) & (_ & _ & _ & Hb & _)).
  split; assumption.
Defined.

(** ** Widths of the lenient conversion *)

Lemma toInt_loop_assemble T rest s :
  toInt_loop T rest s 0 =
  if s <=? size rest
  then Ok (wrap T (be_value (firstn (N.to_nat s) rest)))
  else OutOfRange.
Proof.
  rewrite toInt_loop_spec. destruct (s <=? size rest); [|reflexivity].
  f_equal. apply assemble_big_endian.
Qed.

Lemma toInt_loop_width T rest s :
  toInt_loop T rest s 0 = (v <- toInt_loop T_bigint rest s 0 ;; Ok (wrap T v)).
Proof.
  rewrite !toInt_loop_assemble. destruct (s <=? size rest); reflexivity.
Qed.

(** X10: the lenient conversion to [uint] or [u256] is the conversion to
    [bigint] cut to the low 64 or 256 bits: a payload too wide for the
    requested type is truncated, not refused. *)
Theorem toInt_truncates (T : IntT) (d : bytes) :
  toInt T d = (v <- toInt T_bigint d ;; Ok (wrap T v)).
Proof.
  destruct d as [|c rest]; [reflexivity|].
  rewrite !toInt_cons.
  repeat match goal with
         | |- context [if ?b then _ else _] => destruct b
         end;
    try reflexivity; try apply toInt_loop_width;
    try (destruct (items (c :: rest)); cbn [bind];
         try reflexivity; apply toInt_loop_width).
  cbn [bind]. now rewrite wrap_0.
Qed.

Lemma be_value_bound (bs : bytes) : be_value bs < 256 ^ size bs.
Proof.
  induction bs as [|b bs IH] using rev_ind; [reflexivity|].
  rewrite be_value_snoc, size_app.
  change (size [b]) with 1. rewrite N.pow_add_r, N.pow_1_r.
  pose proof (val_bound b). nia.
Qed.

Lemma size_firstn_le (k : N) (bs : bytes) : size (firstn (N.to_nat k) bs) <= k.
Proof. unfold size. rewrite length_firstn. lia. Qed.

Lemma be_value_firstn_bound (k w : N) (bs : bytes) :
  k <= w -> be_value (firstn (N.to_nat k) bs) < 256 ^ w.
Proof.
  intros Hk. apply N.lt_le_trans with (1 := be_value_bound _).
  apply N.pow_le_mono_r; [lia|].
  apply N.le_trans with (2 := Hk). apply size_firstn_le.
Qed.

(** X11: the width tiers keep their promise: on an [isSlimInt] node the
    conversion to [uint] loses nothing against the one to [bigint], and
    on an [isFixedInt] node neither does the conversion to [u256]. *)
Theorem tiers_fit_their_width (d : bytes) :
  isNull d = false ->
  (isSlimInt d = Ok true -> toSlimInt d = toBigInt d)
  /\ (isFixedInt d = Ok true -> toFatInt d = toBigInt d).
Proof.
  intros Hn. destruct (nonnull_has_first d Hn) as (c & rest & ->).
  unfold toSlimInt, toFatInt, toBigInt. rewrite !toInt_cons.
  rewrite isSlimInt_cons, isFixedInt_cons.
  split; intros Ht;
    (destruct (N.ltb_spec (val c) 0x18);
     [unfold wrap; f_equal; apply N.mod_small; lia|]);
    (destruct (N.ltb_spec (val c) 0x38); [|split_ranges; try discriminate; lia]);
    rewrite !toInt_loop_assemble;
    (destruct (_ <=? _); [|reflexivity]); f_equal; unfold wrap;
    apply N.mod_small.
  - change (2 ^ 64) with (256 ^ 8). apply be_value_firstn_bound.
    split_ranges; try discriminate; lia.
  - change (2 ^ 256) with (256 ^ 32). apply be_value_firstn_bound. lia.
Qed.

Lemma tiers_fit_their_width_witness :
  isNull [x1f; xff; xff; xff; xff; xff; xff; xff; xff] = false
  /\ toSlimInt [x1f; xff; xff; xff; xff; xff; xff; xff; xff] =
     toBigInt [x1f; xff; xff; xff; xff; xff; xff; xff; xff]
  /\ toSlimInt [x20; x01; x00; x00; x00; x00; x00; x00; x00; x00] = Ok 0
  /\ toBigInt [x20; x01; x00; x00; x00; x00; x00; x00; x00; x00] = Ok (2 ^ 64).
Proof.
  split; [reflexivity|].
  split; [|split; reflexivity].
  apply (tiers_fit_their_width [x1f; xff; xff; xff; xff; xff; xff; xff; xff]);
    reflexivity.
Defined.

(** ** Layout of an integer or string node behind its first byte *)

(** With [l] length bytes and a payload count [cnt], [toInt] assembles
    the [cnt] bytes behind the length bytes, and the node fits when
    prefix, length bytes and payload are inside the view. *)
Lemma node_layout c rest :
  0x18 <= val c < 0x80 ->
  exists l cnt,
    lengthSize (c :: rest) = Ok l /\ l <= 8
    /\ (val c < 0x38 /\ l = 0 /\ cnt = Ok (val c - 0x17)
        \/ 0x38 <= val c /\ cnt = items (c :: rest))
    /\ (forall T, toInt T (c :: rest) =
                  (n <- cnt ;; toInt_loop T (skipn (N.to_nat l) rest) n 0))
    /\ fits (c :: rest) =
       match cnt with Ok n => 1 + l + n <=? size (c :: rest) | _ => false end.
Proof.
  intros Hc. unfold fits, announced_end. rewrite lengthSize_cons.
  assert (Hitems : items (c :: rest) = items (c :: rest)) by reflexivity.
  rewrite items_cons in Hitems at 2. cbn zeta in Hitems.
  assert (Hto : forall T, toInt T (c :: rest) = toInt T (c :: rest)) by reflexivity.
  setoid_rewrite toInt_cons in Hto at 2.
  name_field c q m.
  destruct (N.ltb_spec (val c) 0x18); [exfalso; lia|].
  destruct (N.ltb_spec (val c) 0x38).
  { exists 0, (Ok (val c - 0x17)).
    destruct (N.ltb_spec 0x37 m); [exfalso; lia|].
    repeat split; try lia; auto. }
  destruct (N.ltb_spec (val c) 0x40).
  { exists (val c - 55), (items (c :: rest)).
    destruct (N.ltb_spec 0x37 m); [|exfalso; lia].
    replace (m - 55) with (val c - 55) by lia.
    repeat split; try lia; auto.
    destruct (items (c :: rest)); reflexivity. }
  destruct (N.ltb_spec (val c) 0x78).
  { exists 0, (items (c :: rest)).
    destruct (N.ltb_spec 0x37 m); [exfalso; lia|].
    destruct (N.ltb_spec m 0x38); [|exfalso; lia].
    repeat split; try lia; auto.
    - intros T. rewrite Hto, Hitems. cbn [bind skipn N.to_nat].
      now replace (val c - 64) with m by lia.
    - destruct (items (c :: rest)); reflexivity. }
  destruct (N.ltb_spec (val c) 0x80); [|exfalso; lia].
  exists (val c - 119), (items (c :: rest)).
  destruct (N.ltb_spec 0x37 m); [|exfalso; lia].
  replace (m - 55) with (val c - 119) by lia.
  repeat split; try lia; auto.
  destruct (items (c :: rest)); reflexivity.
Qed.

Lemma skipn_succ_cons (l : N) (c : byte) (rest : bytes) :
  skipn (N.to_nat (1 + l)) (c :: rest) = skipn (N.to_nat l) rest.
Proof. replace (N.to_nat (1 + l)) with (S (N.to_nat l)) by lia. reflexivity. Qed.

Lemma cropped_prefix (p : bytes) (n : N) :
  n <= size p -> cropped p 0 n = firstn (N.to_nat n) p.
Proof.
  intros Hn. unfold cropped. rewrite N.add_0_l.
  destruct (N.leb_spec n (size p)); [reflexivity|lia].
Qed.

Lemma size_firstn_exact (n : N) (p : bytes) :
  n <= size p -> size (firstn (N.to_nat n) p) = n.
Proof. unfold size. rewrite length_firstn. lia. Qed.

(** What a string node that lies in its view decodes to. *)
Lemma string_node_decoded c rest :
  isString (c :: rest) = Ok true -> fits (c :: rest) = true ->
  exists l n,
    lengthSize (c :: rest) = Ok l /\ items (c :: rest) = Ok n
    /\ l + n <= size rest
    /\ toString (c :: rest) = Ok (firstn (N.to_nat n) (skipn (N.to_nat l) rest))
    /\ forall T, toInt T (c :: rest) =
                 Ok (wrap T (be_value (firstn (N.to_nat n) (skipn (N.to_nat l) rest)))).
Proof.
  intros Hs Hfits.
  assert (Hc : 0x40 <= val c < 0x80)
    by (rewrite isString_cons in Hs; split_ranges; try discriminate; lia).
  destruct (node_layout c rest ltac:(lia))
    as (l & cnt & Hl & Hl8 & [(Hlt & _)|(_ & ->)] & Hto & Hf); [lia|].
  rewrite Hfits in Hf.
  destruct (items (c :: rest)) as [n| | |] eqn:Hi; try discriminate.
  symmetry in Hf. apply N.leb_le in Hf. rewrite size_cons in Hf.
  exists l, n. repeat split; try assumption; try lia.
  - unfold toString. rewrite Hs, (payload_behind_header _ _ Hl), Hi.
    cbn [bind negb]. rewrite skipn_succ_cons, cropped_prefix; [reflexivity|].
    rewrite size_skipn. lia.
  - intros T. rewrite Hto. cbn [bind]. rewrite toInt_loop_assemble, size_skipn.
    destruct (N.leb_spec n (size rest - l)); [reflexivity|lia].
Qed.

(** X12: on a string node that lies in its view, [toStringStrict] and
    [toString] return the same bytes, [stringSize] is their number, and
    [toInt] is their big-endian value cut to the width asked for. *)
Theorem string_node_views (T : IntT) (d : bytes) :
  isNull d = false -> isString d = Ok true -> fits d = true ->
  exists s,
    toString d = Ok s /\ toStringStrict d = Ok s
    /\ stringSize d = Ok (size s)
    /\ toInt T d = Ok (wrap T (be_value s)).
Proof.
  intros Hn Hs Hfits. destruct (nonnull_has_first d Hn) as (c & rest & ->).
  destruct (string_node_decoded c rest Hs Hfits)
    as (l & n & Hl & Hi & Hle & Hstr & Hint).
  eexists. split; [exact Hstr|].
  split; [|split; [|apply Hint]].
  - unfold toStringStrict. unfold toString in Hstr.
    rewrite Hs in *. exact Hstr.
  - unfold stringSize. rewrite Hs, Hi. cbn [bind]. f_equal. symmetry.
    apply size_firstn_exact. rewrite size_skipn. lia.
Qed.

Lemma string_node_views_witness :
  isNull [x42; x01; x00; xff] = false
  /\ fits [x42; x01; x00; xff] = true
  /\ exists s, toString [x42; x01; x00; xff] = Ok s
               /\ stringSize [x42; x01; x00; xff] = Ok (size s)
               /\ toInt T_uint [x42; x01; x00; xff] = Ok (wrap T_uint (be_value s)).
Proof.
  split; [reflexivity|]. split; [reflexivity|].
  destruct (string_node_views T_uint [x42; x01; x00; xff] eq_refl eq_refl eq_refl)
    as (s & H1 & _ & H2 & H3).
  exists s. repeat split; assumption.
Defined.

(** ** Bytes behind a node *)

Lemma firstn_app_le (k : N) (a b : bytes) :
  k <= size a -> firstn (N.to_nat k) (a ++ b) = firstn (N.to_nat k) a.
Proof.
  intros Hk. rewrite firstn_app.
  replace (N.to_nat k - length a)%nat with 0%nat by (unfold size in Hk; lia).
  cbn [firstn]. apply app_nil_r.
Qed.

Lemma skipn_app_le (k : N) (a b : bytes) :
  k <= size a -> skipn (N.to_nat k) (a ++ b) = skipn (N.to_nat k) a ++ b.
Proof.
  intros Hk. rewrite skipn_app.
  replace (N.to_nat k - length a)%nat with 0%nat by (unfold size in Hk; lia).
  reflexivity.
Qed.

Lemma items_app c rest tail n :
  items (c :: rest) = Ok n -> items (c :: rest ++ tail) = Ok n.
Proof.
  rewrite !items_cons. cbn zeta.
  destruct (_ <? _); [easy|].
  destruct (N.leb_spec (val c mod 64 - 55) (size rest)) as [Hle|]; [|discriminate].
  rewrite size_app.
  destruct (N.leb_spec (val c mod 64 - 55) (size rest + size tail)); [|lia].
  now rewrite firstn_app_le.
Qed.

Lemma toInt_loop_app T rest tail s :
  s <= size rest -> toInt_loop T (rest ++ tail) s 0 = toInt_loop T rest s 0.
Proof.
  intros Hs. rewrite !toInt_loop_spec, size_app, firstn_app_le by assumption.
  destruct (N.leb_spec s (size rest)); [|lia].
  destruct (N.leb_spec s (size rest + size tail)); [reflexivity|lia].
Qed.

(** X13: an integer or string node that lies in its view is decoded from
    its own bytes alone: with any bytes appended behind it, [items],
    [toInt] and [toString] return what they return on the node itself. *)
Theorem trailing_bytes_ignored (T : IntT) (d tail : bytes) :
  isNull d = false -> (isInt d = Ok true \/ isString d = Ok true) ->
  fits d = true ->
  toInt T (d ++ tail) = toInt T d
  /\ toString (d ++ tail) = toString d
  /\ (forall n, items d = Ok n -> items (d ++ tail) = Ok n).
Proof.
  intros Hn Hcat Hfits. destruct (nonnull_has_first d Hn) as (c & rest & ->).
  cbn [app].
  split; [|split; [|intros n; apply items_app]].
  - destruct (N.ltb_spec (val c) 0x18) as [Hd|Hd].
    { rewrite !toInt_cons. destruct (N.ltb_spec (val c) 0x18); [reflexivity|lia]. }
    assert (Hc : val c < 0x80)
      by (rewrite isInt_cons, isString_cons in Hcat;
          destruct Hcat; split_ranges; try discriminate; lia).
    destruct (node_layout c rest ltac:(lia))
      as (l & cnt & Hl & _ & Hcnt & Hto & Hf).
    destruct (node_layout c (rest ++ tail) ltac:(lia))
      as (l' & cnt' & Hl' & _ & Hcnt' & Hto' & _).
    rewrite lengthSize_cons in Hl, Hl'. rewrite Hl in Hl'. injection Hl' as <-.
    rewrite Hfits in Hf.
    destruct cnt as [n| | |]; try discriminate.
    symmetry in Hf. apply N.leb_le in Hf. rewrite size_cons in Hf.
    assert (cnt' = Ok n) as ->.
    { destruct Hcnt as [(? & ? & E)|(? & E)], Hcnt' as [(? & ? & E')|(? & E')];
        try lia; subst cnt'; [congruence|].
      apply items_app. congruence. }
    rewrite Hto, Hto'. cbn [bind].
    rewrite skipn_app_le by lia. apply toInt_loop_app.
    rewrite size_skipn. lia.
  - destruct (isString (c :: rest)) as [[|]| | |] eqn:Hs;
      try (rewrite isString_cons in Hs; discriminate).
    + destruct (string_node_decoded c rest Hs Hfits)
        as (l & n & Hl & Hi & Hle & Hstr & _).
      rewrite Hstr. unfold toString.
      assert (Hs' : isString (c :: rest ++ tail) = Ok true)
        by (rewrite isString_cons in *; exact Hs).
      assert (Hl' : lengthSize (c :: rest ++ tail) = Ok l)
        by (rewrite lengthSize_cons in *; exact Hl).
      rewrite Hs', (payload_behind_header _ _ Hl'), (items_app _ _ _ _ Hi).
      cbn [bind negb].
      rewrite skipn_succ_cons, skipn_app_le by lia.
      rewrite cropped_prefix by (rewrite size_app, size_skipn; lia).
      f_equal. apply firstn_app_le. rewrite size_skipn. lia.
    + unfold toString. rewrite Hs. rewrite isString_cons in *. now rewrite Hs.
Qed.

Lemma trailing_bytes_ignored_witness :
  isNull [x19; x01; x00] = false
  /\ fits [x19; x01; x00] = true
  /\ toInt T_uint ([x19; x01; x00] ++ [xff; xff]) = toInt T_uint [x19; x01; x00].
Proof.
  split; [reflexivity|]. split; [reflexivity|].
  apply (trailing_bytes_ignored T_uint [x19; x01; x00] [xff; xff]);
    [reflexivity | left; reflexivity | reflexivity].
Defined.

(** ** The encoder: byte counts and big-endian output *)

(** X14: for a value that is not zero, [bytesRequired] is the least
    number of bytes that hold it, and it grows with the value. *)
Theorem bytesRequired_minimal (v k : N) :
  0 < v -> v < 256 ^ k -> k < 2 ^ 64 ->
  1 <= bytesRequired v <= k
  /\ v < 256 ^ bytesRequired v
  /\ 256 ^ (bytesRequired v - 1) <= v
  /\ (forall w, v <= w -> w < 256 ^ k -> bytesRequired v <= bytesRequired w).
Proof.
  intros Hpos Hlt Hk.
  pose proof (bytesRequired_least (N.to_nat k) v Hpos) as Hv.
  rewrite N2Nat.id in Hv. specialize (Hv Hlt Hk). cbn zeta in Hv.
  destruct Hv as (Hr & Hup & Hlow).
  repeat split; try assumption; try lia.
  intros w Hvw Hw.
  pose proof (bytesRequired_least (N.to_nat k) w ltac:(lia)) as Hbw.
  rewrite N2Nat.id in Hbw. specialize (Hbw Hw Hk). cbn zeta in Hbw.
  destruct Hbw as (Hrw & Hupw & _).
  destruct (N.le_gt_cases (bytesRequired v) (bytesRequired w)) as [|Hgt];
    [assumption|exfalso].
  assert (256 ^ bytesRequired w <= 256 ^ (bytesRequired v - 1))
    by (apply N.pow_le_mono_r; lia).
  lia.
Qed.

Lemma bytesRequired_minimal_witness :
  0 < 65536 /\ 65536 < 256 ^ 8
  /\ bytesRequired 65536 <= 8 /\ 256 ^ (bytesRequired 65536 - 1) <= 65536.
Proof.
  assert (H0 : 0 < 65536) by reflexivity.
  assert (H1 : 65536 < 256 ^ 8) by reflexivity.
  destruct (bytesRequired_minimal 65536 8 H0 H1 eq_refl) as ((_ & Hle) & _ & Hlow & _).
  repeat split; assumption.
Defined.

(** X15: with a count [_br] that holds the value, [pushInt] leaves what
    the stream held untouched and appends exactly [_br] bytes whose
    big-endian value is the value. *)
Theorem pushInt_exact (m_out : bytes) (v br : N) :
  v < 256 ^ br ->
  exists w, pushInt m_out v br = Ok (m_out ++ w)
            /\ size w = br /\ be_value w = v.
Proof.
  intros Hv. exists (be_bytes (N.to_nat br) v). repeat split.
  - now apply pushInt_spec.
  - unfold size. rewrite length_be_bytes. lia.
  - rewrite be_value_be_bytes, N2Nat.id. now apply N.mod_small.
Qed.

Lemma pushInt_exact_witness :
  0x010203 < 256 ^ 4
  /\ exists w, pushInt [xaa] 0x010203 4 = Ok ([xaa] ++ w)
               /\ size w = 4 /\ be_value w = 0x010203.
Proof.
  assert (H : 0x010203 < 256 ^ 4) by reflexivity.
  split; [exact H|]. exact (pushInt_exact [xaa] 0x010203 4 H).
Defined.

(** The loop run on a value of exactly [k] bytes stores them over the
    [k] bytes in front of its pointer, whatever they were. *)
Lemma pushInt_loop_overwrites (k : nat) :
  forall (pre mid suf : bytes) (n : N),
    length mid = k -> n < 256 ^ N.of_nat k ->
    (k = 0%nat \/ 256 ^ (N.of_nat k - 1) <= n) ->
    pushInt_loop (length pre + k) (pre ++ mid ++ suf) n =
    Ok (pre ++ be_bytes k n ++ suf).
Proof.
  induction k as [|k IH]; intros pre mid suf n Hmid Hn Hmin;
    rewrite pushInt_loop_unfold.
  - cbn in Hn. assert (n = 0) as -> by lia.
    destruct mid; [reflexivity|discriminate].
  - destruct Hmin as [|Hmin]; [discriminate|].
    replace (N.of_nat (S k) - 1) with (N.of_nat k) in Hmin by lia.
    assert (Hpos : 1 <= 256 ^ N.of_nat k)
      by (change 1 with (256 ^ 0); apply N.pow_le_mono_r; lia).
    destruct (N.eqb_spec n 0) as [->|Hne]; [lia|].
    destruct (exists_last (l := mid)) as (mid' & x & ->);
      [intros ->; discriminate|].
    rewrite length_app in Hmid. cbn in Hmid.
    replace (length pre + S k)%nat with (S (length pre + k)) by lia.
    replace (pre ++ (mid' ++ [x]) ++ suf) with ((pre ++ mid') ++ x :: suf)
      by (now rewrite <- !app_assoc).
    replace (length pre + k)%nat with (length (pre ++ mid')) at 2
      by (rewrite length_app; lia).
    rewrite store_middle, <- app_assoc.
    rewrite N.shiftr_div_pow2. change (2 ^ 8) with 256.
    replace (N.of_nat (S k)) with (N.of_nat k + 1) in Hn by lia.
    rewrite N.pow_add_r, N.pow_1_r in Hn.
    rewrite IH.
    + cbn [be_bytes]. now rewrite <- !app_assoc.
    + lia.
    + apply N.Div0.div_lt_upper_bound. lia.
    + destruct k as [|k]; [now left|right].
      replace (N.of_nat (S k) - 1) with (N.of_nat k) by lia.
      replace (N.of_nat (S k)) with (N.of_nat k + 1) in Hmin by lia.
      rewrite N.pow_add_r, N.pow_1_r in Hmin.
      apply N.div_le_lower_bound; lia.
Qed.

Lemma pushInt_loop_underflow (room : nat) :
  forall (m : bytes) (n : N),
    256 ^ N.of_nat room <= n -> pushInt_loop room m n = OutOfRange.
Proof.
  induction room as [|room IH]; intros m n Hn; rewrite pushInt_loop_unfold.
  - cbn in Hn. destruct (N.eqb_spec n 0); [lia|reflexivity].
  - assert (Hpos : 1 <= 256 ^ N.of_nat (S room))
      by (change 1 with (256 ^ 0); apply N.pow_le_mono_r; lia).
    destruct (N.eqb_spec n 0); [lia|].
    apply IH. rewrite N.shiftr_div_pow2. change (2 ^ 8) with 256.
    replace (N.of_nat (S room)) with (N.of_nat room + 1) in Hn by lia.
    rewrite N.pow_add_r, N.pow_1_r in Hn.
    apply N.div_le_lower_bound; lia.
Qed.

(** X16: [pushInt] trusts its count.  Given fewer bytes than the value
    needs, the loop goes on towards the front: it overwrites the end of
    what the stream already held, and when the whole stream is shorter
    than the value it stores in front of the vector. *)
Theorem pushInt_short_count (m_out : bytes) (v br k : N) :
  0 < v -> v < 256 ^ k -> k < 2 ^ 64 -> br < bytesRequired v ->
  (bytesRequired v <= size m_out + br ->
   pushInt m_out v br =
   Ok (firstn (N.to_nat (size m_out + br - bytesRequired v)) m_out
       ++ be_bytes (N.to_nat (bytesRequired v)) v))
  /\ (size m_out + br < bytesRequired v -> pushInt m_out v br = OutOfRange).
Proof.
  intros Hpos Hvk Hk64 Hbr.
  destruct (bytesRequired_least (N.to_nat k) v Hpos)
    as (_ & Hup & Hlow); [now rewrite N2Nat.id | now rewrite N2Nat.id |].
  clear Hvk Hk64 k.
  set (k := bytesRequired v) in *.
  unfold pushInt. rewrite length_app, repeat_length.
  split; intros Hroom.
  - set (m := m_out ++ repeat x00 (N.to_nat br)).
    assert (Hlen : length m = (length m_out + N.to_nat br)%nat)
      by (unfold m; now rewrite length_app, repeat_length).
    rewrite <- Hlen.
    set (keep := (length m - N.to_nat k)%nat).
    assert (Hkeep : (keep <= length m_out)%nat) by (unfold keep, size in *; lia).
    pose proof (pushInt_loop_overwrites (N.to_nat k)
                  (firstn keep m) (skipn keep m) [] v) as H.
    rewrite !app_nil_r, firstn_skipn, length_firstn, length_skipn, N2Nat.id in H.
    replace (Init.Nat.min keep (length m) + N.to_nat k)%nat with (length m) in H
      by (unfold keep, size in *; lia).
    rewrite H; try assumption.
    + f_equal. f_equal. unfold m. rewrite firstn_app.
      replace (keep - length m_out)%nat with 0%nat by lia.
      cbn [firstn]. rewrite app_nil_r. f_equal. unfold keep, size in *. lia.
    + unfold keep, size in *. lia.
    + right. exact Hlow.
  - apply pushInt_loop_underflow.
    apply N.le_trans with (2 := Hlow). apply N.pow_le_mono_r; [lia|].
    unfold size in *. lia.
Qed.

Lemma pushInt_short_count_witness :
  pushInt [xaa; xbb] 0x010203 2 = Ok [xaa; x01; x02; x03]
  /\ pushInt [] 0x010203 2 = OutOfRange.
Proof.
  destruct (pushInt_short_count [xaa; xbb] 0x010203 2 8)
    as (Hover & _); try reflexivity.
  destruct (pushInt_short_count [] 0x010203 2 8)
    as (_ & Hunder); try reflexivity.
  split.
  - rewrite Hover by (vm_compute; discriminate). reflexivity.
  - apply Hunder. reflexivity.
Defined.

Lemma be_bytes_head (k : nat) (n : N) :
  be_bytes (S k) n = to_byte (n / 256 ^ N.of_nat k) :: be_bytes k n.
Proof.
  revert n. induction k as [|k IH]; intros n.
  - cbn [be_bytes app]. now rewrite N.pow_0_r, N.div_1_r.
  - change (be_bytes (S (S k)) n) with (be_bytes (S k) (n / 256) ++ [to_byte n]).
    rewrite IH. cbn [be_bytes app]. f_equal. f_equal.
    replace (N.of_nat (S k)) with (1 + N.of_nat k) by lia.
    rewrite N.pow_add_r, N.pow_1_r. apply N.Div0.div_div.
Qed.

(** X17: written with the count [bytesRequired] gives, a value that is
    not zero starts with a byte that is not zero: the encoding has no
    leading zero byte. *)
Theorem minimal_has_no_leading_zero (m_out : bytes) (v k : N) :
  0 < v -> v < 256 ^ k -> k < 2 ^ 64 ->
  exists b w, pushInt m_out v (bytesRequired v) = Ok (m_out ++ b :: w)
              /\ val b <> 0.
Proof.
  intros Hpos Hvk Hk.
  destruct (bytesRequired_least (N.to_nat k) v Hpos)
    as ((Hb1 & _) & Hup & Hlow); [now rewrite N2Nat.id | now rewrite N2Nat.id |].
  rewrite (pushInt_spec m_out v _ Hup).
  destruct (N.to_nat (bytesRequired v)) as [|j] eqn:Hj; [lia|].
  rewrite be_bytes_head.
  replace (bytesRequired v - 1) with (N.of_nat j) in Hlow by lia.
  replace (bytesRequired v) with (N.of_nat j + 1) in Hup by lia.
  rewrite N.pow_add_r, N.pow_1_r in Hup.
  assert (Hp : 0 < 256 ^ N.of_nat j)
    by (apply N.lt_le_trans with (m := 256 ^ 0); [reflexivity|];
        apply N.pow_le_mono_r; lia).
  do 2 eexists. split; [reflexivity|].
  rewrite val_to_byte.
  assert (1 <= v / 256 ^ N.of_nat j) by (apply N.div_le_lower_bound; lia).
  assert (v / 256 ^ N.of_nat j < 256) by (apply N.Div0.div_lt_upper_bound; lia).
  rewrite N.mod_small; lia.
Qed.

Lemma minimal_has_no_leading_zero_witness :
  0 < 256 /\ 256 < 256 ^ 8
  /\ exists b w, pushInt [x19] 256 (bytesRequired 256) = Ok ([x19] ++ b :: w)
                 /\ val b <> 0.
Proof.
  assert (H0 : 0 < 256) by reflexivity.
  assert (H1 : 256 < 256 ^ 8) by reflexivity.
  split; [exact H0|]. split; [exact H1|].
  exact (minimal_has_no_leading_zero [x19] 256 8 H0 H1 eq_refl).
Defined.

(** ** Integers: encode, then decode *)

Lemma size_be_bytes (k : N) (n : N) : size (be_bytes (N.to_nat k) n) = k.
Proof. unfold size. rewrite length_be_bytes. lia. Qed.

Lemma firstn_be_bytes (k : N) (n : N) (tail : bytes) :
  firstn (N.to_nat k) (be_bytes (N.to_nat k) n ++ tail) = be_bytes (N.to_nat k) n.
Proof.
  rewrite <- (length_be_bytes (N.to_nat k) n) at 1. apply firstn_exact.
Qed.

Lemma skipn_be_bytes (k : N) (n : N) (tail : bytes) :
  skipn (N.to_nat k) (be_bytes (N.to_nat k) n ++ tail) = tail.
Proof.
  rewrite <- (length_be_bytes (N.to_nat k) n) at 1. apply skipn_exact.
Qed.

(** Decoding an indirect-value integer node. *)
Lemma decode_indirect_value T (h : byte) (br v : N) :
  1 <= br <= 32 -> val h = br + 0x17 -> v < 256 ^ br ->
  toInt T (h :: be_bytes (N.to_nat br) v) = Ok (wrap T v)
  /\ fits (h :: be_bytes (N.to_nat br) v) = true.
Proof.
  intros Hbr Hh Hv.
  destruct (node_layout h (be_bytes (N.to_nat br) v) ltac:(lia))
    as (l & cnt & _ & _ & [(_ & -> & ->)|(Hge & _)] & Hto & Hf); [|lia].
  rewrite Hto, Hf, size_cons, size_be_bytes. cbn [bind skipn N.to_nat].
  replace (val h - 23) with br by lia.
  split; [|apply N.leb_le; lia].
  rewrite toInt_loop_assemble, size_be_bytes, N.leb_refl.
  rewrite <- (app_nil_r (be_bytes _ _)), firstn_be_bytes.
  rewrite be_value_be_bytes, N2Nat.id. now rewrite N.mod_small.
Qed.

(** X18: a value of up to 32 bytes written as an indirect-value integer
    (the prefix byte [bytesRequired + 0x17], then [pushInt] with that
    count) is read back by the strict conversions to [bigint] and [u256],
    and by the one to [uint] when it is below 2^64. *)
Theorem integer_round_trip (v : N) :
  0 < v -> v < 256 ^ 32 ->
  exists e,
    pushInt (push_back [] (bytesRequired v + 0x17)) v (bytesRequired v) = Ok e
    /\ fits e = true
    /\ isFixedInt e = Ok true
    /\ toBigIntStrict e = Ok v /\ toFatIntStrict e = Ok v
    /\ (v < 2 ^ 64 -> isSlimInt e = Ok true /\ toSlimIntStrict e = Ok v).
Proof.
  intros Hpos Hv.
  destruct (bytesRequired_least 32 v Hpos Hv eq_refl) as (Hbr & Hup & _).
  change (N.of_nat 32) with 32 in Hbr.
  rewrite (pushInt_spec _ v _ Hup). unfold push_back. cbn [app].
  set (h := to_byte (bytesRequired v + 23)).
  assert (Hh : val h = bytesRequired v + 23)
    by (unfold h; rewrite val_to_byte; apply N.mod_small; lia).
  eexists. split; [reflexivity|].
  pose proof (decode_indirect_value T_bigint h _ v Hbr Hh Hup) as [Hbig Hfits].
  pose proof (decode_indirect_value T_u256 h _ v Hbr Hh Hup) as [Hfat _].
  pose proof (decode_indirect_value T_uint h _ v Hbr Hh Hup) as [Hslim _].
  split; [exact Hfits|].
  unfold toBigIntStrict, toFatIntStrict, toSlimIntStrict.
  rewrite isFixedInt_cons, isInt_cons, isFatInt_cons, isSlimInt_cons.
  rewrite Hbig, Hfat, Hslim. unfold and_then, not_, bind, wrap.
  repeat split; split_ranges; try reflexivity; try (exfalso; lia).
  all: try (f_equal; apply N.mod_small; assumption).
  all: match goal with
       | Hp : 0 < ?x, Hv64 : ?x < 2 ^ 64 |- _ =>
           destruct (bytesRequired_least 8 x Hp Hv64 eq_refl) as ((_ & H8) & _)
       end;
    change (N.of_nat 8) with 8 in H8; exfalso; lia.
Qed.

Lemma integer_round_trip_witness :
  0 < 256 /\ 256 < 256 ^ 32
  /\ exists e,
      pushInt (push_back [] (bytesRequired 256 + 0x17)) 256 (bytesRequired 256) = Ok e
      /\ toBigIntStrict e = Ok 256.
Proof.
  assert (H0 : 0 < 256) by reflexivity.
  assert (H1 : 256 < 256 ^ 32) by reflexivity.
  split; [exact H0|]. split; [exact H1|].
  destruct (integer_round_trip 256 H0 H1) as (e & He & _ & _ & Hb & _).
  exists e. split; assumption.
Defined.

(** Decoding an indirect-addressed integer node. *)
Lemma decode_indirect_addressed T (h : byte) (brbr br v : N) :
  1 <= brbr <= 8 -> val h = brbr + 0x37 -> br < 256 ^ brbr -> v < 256 ^ br ->
  let e := h :: be_bytes (N.to_nat brbr) br ++ be_bytes (N.to_nat br) v in
  items e = Ok br /\ toInt T e = Ok (wrap T v) /\ fits e = true.
Proof.
  intros Hbb Hh Hbr Hv. cbn zeta.
  set (rest := be_bytes (N.to_nat brbr) br ++ be_bytes (N.to_nat br) v).
  assert (Hsize : size rest = brbr + br)
    by (unfold rest; now rewrite size_app, !size_be_bytes).
  assert (Hl : lengthSize (h :: rest) = Ok brbr).
  { rewrite lengthSize_cons. name_field h q m. f_equal. split_ranges; lia. }
  assert (Hi : items (h :: rest) = Ok br).
  { rewrite items_cons. cbn zeta. name_field h q m.
    destruct (N.ltb_spec m 56); [lia|].
    replace (m - 55) with brbr by lia.
    destruct (N.leb_spec brbr (size rest)); [|lia].
    unfold rest. rewrite firstn_be_bytes, be_value_be_bytes, N2Nat.id.
    rewrite (N.mod_small _ _ Hbr). f_equal. apply uint_small.
    apply N.lt_le_trans with (1 := Hbr).
    change (2 ^ 64) with (256 ^ 8). apply N.pow_le_mono_r; lia. }
  destruct (node_layout h rest ltac:(lia))
    as (l & cnt & Hl' & _ & [(Hlt & _)|(_ & ->)] & Hto & Hf); [lia|].
  rewrite Hl in Hl'. injection Hl' as <-.
  rewrite Hto, Hf, Hi, size_cons, Hsize. cbn [bind].
  repeat split; [|apply N.leb_le; lia].
  unfold rest. rewrite skipn_be_bytes.
  rewrite toInt_loop_assemble, size_be_bytes, N.leb_refl.
  rewrite <- (app_nil_r (be_bytes (N.to_nat br) v)), firstn_be_bytes.
  rewrite be_value_be_bytes, N2Nat.id. now rewrite N.mod_small.
Qed.

(** X19: a value of more than 32 bytes written in the indirect-addressed
    layout (the prefix byte [0x37 + bytesRequired(br)], then [pushInt] of
    the byte count [br], then [pushInt] of the value) is an [isBigInt]
    node: [toBigIntStrict] reads the value back, [toFatIntStrict] throws,
    and the lenient [toFatInt] returns the value cut to 256 bits. *)
Theorem big_integer_round_trip (v k : N) :
  256 ^ 32 <= v -> v < 256 ^ k -> k < 2 ^ 64 ->
  exists hdr e,
    pushInt (push_back [] (0x37 + bytesRequired (bytesRequired v)))
            (bytesRequired v) (bytesRequired (bytesRequired v)) = Ok hdr
    /\ pushInt hdr v (bytesRequired v) = Ok e
    /\ fits e = true
    /\ isBigInt e = Ok true
    /\ toBigIntStrict e = Ok v
    /\ toFatIntStrict e = BadCast
    /\ toFatInt e = Ok (v mod 2 ^ 256).
Proof.
  intros Hbig Hvk Hk.
  assert (Hpos : 0 < v) by (apply N.lt_le_trans with (2 := Hbig); reflexivity).
  destruct (bytesRequired_least (N.to_nat k) v Hpos)
    as ((Hb1 & Hbk) & Hup & _); [now rewrite N2Nat.id | now rewrite N2Nat.id |].
  rewrite N2Nat.id in Hbk.
  set (br := bytesRequired v) in *.
  assert (Hbr : br < 2 ^ 64) by lia.
  destruct (bytesRequired_least 8 br ltac:(lia) Hbr eq_refl)
    as ((Hbb1 & Hbb8) & Hbbup & _).
  change (N.of_nat 8) with 8 in Hbb8.
  set (brbr := bytesRequired br) in *.
  rewrite (pushInt_spec _ br brbr Hbbup). unfold push_back. cbn [app].
  do 2 eexists. split; [reflexivity|].
  rewrite (pushInt_spec _ v br Hup). cbn [app]. split; [reflexivity|].
  set (h := to_byte (55 + brbr)).
  assert (Hh : val h = brbr + 55)
    by (unfold h; rewrite val_to_byte, N.mod_small; lia).
  destruct (decode_indirect_addressed T_bigint h brbr br v
              ltac:(lia) Hh Hbbup Hup) as (_ & Hdec & Hfits).
  destruct (decode_indirect_addressed T_u256 h brbr br v
              ltac:(lia) Hh Hbbup Hup) as (_ & Hfat & _).
  cbn zeta in *.
  split; [exact Hfits|].
  unfold toBigIntStrict, toFatIntStrict, toFatInt.
  rewrite isBigInt_cons, isInt_cons, isFatInt_cons, isSlimInt_cons, Hdec, Hfat.
  unfold and_then, not_, bind, wrap.
  repeat split; split_ranges; try reflexivity; exfalso; lia.
Qed.

Lemma big_integer_round_trip_witness :
  256 ^ 32 <= 256 ^ 32 /\ 256 ^ 32 < 256 ^ 33
  /\ exists hdr e,
      pushInt (push_back [] (0x37 + bytesRequired (bytesRequired (256 ^ 32))))
              (bytesRequired (256 ^ 32)) (bytesRequired (bytesRequired (256 ^ 32)))
      = Ok hdr
      /\ pushInt hdr (256 ^ 32) (bytesRequired (256 ^ 32)) = Ok e
      /\ toBigIntStrict e = Ok (256 ^ 32)
      /\ toFatInt e = Ok 0.
Proof.
  assert (H0 : 256 ^ 32 <= 256 ^ 32) by apply N.le_refl.
  assert (H1 : 256 ^ 32 < 256 ^ 33) by reflexivity.
  split; [exact H0|]. split; [exact H1|].
  destruct (big_integer_round_trip (256 ^ 32) 33 H0 H1 eq_refl)
    as (hdr & e & Hh & He & _ & _ & Hb & _ & Hf).
  exists hdr, e. repeat split; assumption.
Defined.

(** ** The null check *)

(** X20: [operator bool] is the guard the header functions need.  On a
    node it accepts, every classification predicate, [isEmpty],
    [lengthSize] and [payload] return; on a node it rejects, the
    predicates and the conversions stop at their assertion, while
    [isEmpty], [lengthSize] and [payload], which carry none, index the
    empty view. *)
Theorem null_check_guards_header (d : bytes) :
  (operator_bool d = true ->
   (forall p, In p [isString; isList; isInt; isSlimInt; isFatInt; isFixedInt;
                    isBigInt; isDirectValueInt; isIndirectValueInt;
                    isIndirectAddressedInt; isSmallString; isSmallList; isEmpty] ->
              exists b, p d = Ok b)
   /\ (exists l, lengthSize d = Ok l) /\ (exists p, payload d = Ok p))
  /\ (operator_bool d = false ->
      (forall p, In p [isString; isList; isInt; isSlimInt; isFatInt; isFixedInt;
                       isBigInt; isDirectValueInt; isIndirectValueInt;
                       isIndirectAddressedInt; isSmallString; isSmallList] ->
                 p d = AssertFail)
      /\ (forall T, toInt T d = AssertFail)
      /\ toString d = AssertFail /\ itemCount d = AssertFail
      /\ isEmpty d = OutOfRange /\ lengthSize d = OutOfRange
      /\ payload d = OutOfRange).
Proof.
  destruct d as [|c rest]; (split; [intros Hb|intros Hb]); try discriminate.
  - repeat split; try reflexivity.
    intros p Hp. cbn [In] in Hp.
    repeat (destruct Hp as [<-|Hp]; [reflexivity|]). contradiction.
  - split; [|split].
    + intros p Hp. cbn [In] in Hp.
      repeat (destruct Hp as [<-|Hp];
              [autorewrite with first_byte tiers; eauto|]).
      contradiction.
    + rewrite lengthSize_cons. eauto.
    + unfold payload. rewrite at_0_cons. cbn [bind]. eauto.
Qed.

Lemma null_check_guards_header_witness :
  operator_bool [] = false /\ isInt [] = AssertFail /\ payload [] = OutOfRange
  /\ operator_bool [xc0] = true /\ exists b, isList [xc0] = Ok b.
Proof.
  destruct (null_check_guards_header []) as (_ & Hnull).
  destruct (Hnull eq_refl) as (Hp & _ & _ & _ & _ & _ & Hpay).
  destruct (null_check_guards_header [xc0]) as (Hok & _).
  destruct (Hok eq_refl) as (Hq & _).
  split; [reflexivity|].
  split; [apply Hp; cbn; tauto|].
  split; [exact Hpay|].
  split; [reflexivity|].
  apply Hq. cbn. tauto.
Defined.

(** ** The size of an integer encoding *)

(** X21: on the encoding of an integer, [intSize] is the number of bytes
    behind the prefix byte.  For a value of up to 32 bytes written as an
    indirect-value integer that is [bytesRequired] of the value; for a
    larger one written in the indirect-addressed layout it is the number
    of length bytes plus the number of value bytes.  In both cases it is
    the size of the encoding less one. *)
Theorem intSize_of_encoding (v k : N) :
  0 < v -> v < 256 ^ k -> k + 8 < 2 ^ 64 ->
  (v < 256 ^ 32 ->
   exists e,
     pushInt (push_back [] (bytesRequired v + 0x17)) v (bytesRequired v) = Ok e
     /\ intSize e = Ok (bytesRequired v)
     /\ size e = 1 + bytesRequired v)
  /\ (256 ^ 32 <= v ->
      exists hdr e,
        pushInt (push_back [] (0x37 + bytesRequired (bytesRequired v)))
                (bytesRequired v) (bytesRequired (bytesRequired v)) = Ok hdr
        /\ pushInt hdr v (bytesRequired v) = Ok e
        /\ intSize e = Ok (bytesRequired (bytesRequired v) + bytesRequired v)
        /\ size e = 1 + bytesRequired (bytesRequired v) + bytesRequired v).
Proof.
  intros Hpos Hvk Hk.
  destruct (bytesRequired_least (N.to_nat k) v Hpos)
    as ((Hb1 & Hbk) & Hup & Hlow); [now rewrite N2Nat.id | rewrite N2Nat.id; lia |].
  rewrite N2Nat.id in Hbk.
  split.
  - intros Hv.
    destruct (bytesRequired_least 32 v Hpos Hv eq_refl) as ((_ & Hb32) & _).
    change (N.of_nat 32) with 32 in Hb32.
    rewrite (pushInt_spec _ v _ Hup). unfold push_back. cbn [app].
    eexists. split; [reflexivity|].
    rewrite intSize_cons, size_cons, size_be_bytes, val_to_byte.
    rewrite N.mod_small by lia.
    split; [|reflexivity].
    split_ranges; try (exfalso; lia). f_equal. lia.
  - intros Hbig.
    set (br := bytesRequired v) in *.
    assert (Hbr : br < 2 ^ 64) by lia.
    destruct (bytesRequired_least 8 br ltac:(lia) Hbr eq_refl)
      as ((Hbb1 & Hbb8) & Hbbup & _).
    change (N.of_nat 8) with 8 in Hbb8.
    set (brbr := bytesRequired br) in *.
    rewrite (pushInt_spec _ br brbr Hbbup). unfold push_back. cbn [app].
    do 2 eexists. split; [reflexivity|].
    rewrite (pushInt_spec _ v br Hup). cbn [app]. split; [reflexivity|].
    set (h := to_byte (55 + brbr)).
    assert (Hh : val h = brbr + 55)
      by (unfold h; rewrite val_to_byte, N.mod_small; lia).
    destruct (decode_indirect_addressed T_bigint h brbr br v
                ltac:(lia) Hh Hbbup Hup) as (Hi & _ & _).
    cbn zeta in Hi.
    rewrite intSize_cons, Hi, size_cons, size_app, !size_be_bytes.
    cbn [bind].
    split; [|lia].
    split_ranges; try (exfalso; lia).
    replace (val h - 55) with brbr by lia.
    f_equal. apply uint_small. lia.
Qed.

Lemma intSize_of_encoding_witness :
  0 < 256 /\ 256 < 256 ^ 8
  /\ (exists e,
        pushInt (push_back [] (bytesRequired 256 + 0x17)) 256 (bytesRequired 256) = Ok e
        /\ intSize e = Ok (bytesRequired 256))
  /\ exists hdr e,
      pushInt (push_back [] (0x37 + bytesRequired (bytesRequired (256 ^ 32))))
              (bytesRequired (256 ^ 32)) (bytesRequired (bytesRequired (256 ^ 32)))
      = Ok hdr
      /\ pushInt hdr (256 ^ 32) (bytesRequired (256 ^ 32)) = Ok e
      /\ intSize e = Ok 34.
Proof.
  assert (H0 : 0 < 256) by reflexivity.
  assert (H1 : 256 < 256 ^ 8) by reflexivity.
  split; [exact H0|]. split; [exact H1|].
  split.
  - destruct (intSize_of_encoding 256 8 H0 H1 eq_refl) as (Hsmall & _).
    destruct (Hsmall eq_refl) as (e & He & Hi & _).
    exists e. split; assumption.
  - assert (H2 : 0 < 256 ^ 32) by reflexivity.
    assert (H3 : 256 ^ 32 < 256 ^ 33) by reflexivity.
    destruct (intSize_of_encoding (256 ^ 32) 33 H2 H3 eq_refl) as (_ & Hlarge).
    destruct (Hlarge (N.le_refl _)) as (hdr & e & Hh & He & Hi & _).
    exists hdr, e. repeat split; assumption.
Defined.
